(** * browser-bot: the progress tracker, the agent loop and the snapshot trimmer

    A shallow embedding of
      - [src/agent/StateManager.ts]      (module [StateManager]),
      - [src/agent/BrowserBot.ts]        (module [BrowserBot]: the loop of [run]
                                          and [buildResult]),
      - [src/playwright/ResponseTrimmer.ts] (module [ResponseTrimmer]),
    followed by the properties of the specification that concern them.

    Conventions.
      - The counters of [AgentState] are JavaScript numbers that only ever hold
        integers (they start at 0 and are incremented); they are modelled in
        [Z].  [maxSteps] and the failure threshold come from the configuration
        and are integers of either sign.
      - An optional field [f?: T] is an [option T]; [a ?? b] is a match on it.
      - A JavaScript string is the list of its UTF-16 code units. *)

From Stdlib Require Import ZArith List Bool Lia.
From Stdlib Require Import Strings.String Strings.Ascii NArith.
From Stdlib Require Import Numbers.DecimalString Numbers.DecimalNat.
From Stdlib Require Import Floats.PrimFloat.
From Equations Require Import Equations.
From Equations.Prop Require Import Logic.
Import ListNotations.

Local Open Scope Z_scope.

(** ** Types of [src/types/Agent.ts] *)

Inductive ExitReason : Type :=
| success
| max_steps
| max_failures
| user_interrupt
| error.

Record AgentState : Type := mkAgentState {
  currentStep : Z;
  maxSteps : Z;
  consecutiveFailures : Z;
  isDone : bool;
  shouldStop : bool
}.

(** The two options [run] reads. *)
Record RunOptions : Type := mkRunOptions {
  opt_maxSteps : option Z;
  opt_maxFailures : option Z
}.

(** The result of [run], without [conversationHistory] (it is copied from
    the provider's session memory). *)
Record TaskResult : Type := mkTaskResult {
  res_success : bool;
  res_message : string;
  res_stepsTaken : Z;
  res_exitReason : ExitReason
}.

(** [a ?? b] *)
Definition nullish {A : Type} (a : option A) (b : A) : A :=
  match a with
  | Some v => v
  | None => b
  end.

(** ** [StateManager] *)

Module StateManager.

Record StateManagerConfig : Type := mkConfig {
  cfg_maxSteps : option Z;
  cfg_maxConsecutiveFailures : option Z
}.

(** The object: its [state] field and the read-only threshold. *)
Record t : Type := mk {
  state : AgentState;
  maxConsecutiveFailures : Z
}.

Definition emptyConfig : StateManagerConfig := mkConfig None None.

Definition constructor (config : StateManagerConfig) : t :=
  {| maxConsecutiveFailures := nullish (cfg_maxConsecutiveFailures config) 3;
     state := {| currentStep := 0;
                 maxSteps := nullish (cfg_maxSteps config) 100;
                 consecutiveFailures := 0;
                 isDone := false;
                 shouldStop := false |} |}.

Definition with_state (m : t) (s : AgentState) : t :=
  {| state := s; maxConsecutiveFailures := maxConsecutiveFailures m |}.

Definition nextStep (m : t) : t :=
  let s := state m in
  with_state m
    {| currentStep := currentStep s + 1;
       maxSteps := maxSteps s;
       consecutiveFailures := consecutiveFailures s;
       isDone := isDone s;
       shouldStop := shouldStop s |}.

Definition recordSuccess (m : t) : t :=
  let s := state m in
  with_state m
    {| currentStep := currentStep s;
       maxSteps := maxSteps s;
       consecutiveFailures := 0;
       isDone := isDone s;
       shouldStop := shouldStop s |}.

Definition recordFailure (m : t) : t :=
  let s := state m in
  let failures := consecutiveFailures s + 1 in
  with_state m
    {| currentStep := currentStep s;
       maxSteps := maxSteps s;
       consecutiveFailures := failures;
       isDone := isDone s;
       shouldStop :=
         if failures >=? maxConsecutiveFailures m then true
         else shouldStop s |}.

Definition markComplete (m : t) : t :=
  let s := state m in
  with_state m
    {| currentStep := currentStep s;
       maxSteps := maxSteps s;
       consecutiveFailures := consecutiveFailures s;
       isDone := true;
       shouldStop := true |}.

Definition markFailed (m : t) : t :=
  let s := state m in
  with_state m
    {| currentStep := currentStep s;
       maxSteps := maxSteps s;
       consecutiveFailures := consecutiveFailures s;
       isDone := isDone s;
       shouldStop := true |}.

Definition shouldContinue (m : t) : bool :=
  let s := state m in
  if shouldStop s then false
  else if isDone s then false
  else if currentStep s >=? maxSteps s then false
  else true.

Definition isLastStep (m : t) : bool :=
  currentStep (state m) >=? maxSteps (state m) - 1.

Definition getExitReason (m : t) : ExitReason :=
  let s := state m in
  if isDone s then success
  else if consecutiveFailures s >=? maxConsecutiveFailures m then max_failures
  else if currentStep s >=? maxSteps s then max_steps
  else if shouldStop s then error
  else success.

Definition getState (m : t) : AgentState := state m.
Definition getCurrentStep (m : t) : Z := currentStep (state m).
Definition getMaxSteps (m : t) : Z := maxSteps (state m).
Definition getConsecutiveFailures (m : t) : Z := consecutiveFailures (state m).

(** The five mutators the loop uses, as data, to speak about call
    sequences.  ([reset] is a test helper and is not one of them.) *)
Inductive Op : Type :=
| OpNextStep
| OpRecordSuccess
| OpRecordFailure
| OpMarkComplete
| OpMarkFailed.

Definition call (o : Op) (m : t) : t :=
  match o with
  | OpNextStep => nextStep m
  | OpRecordSuccess => recordSuccess m
  | OpRecordFailure => recordFailure m
  | OpMarkComplete => markComplete m
  | OpMarkFailed => markFailed m
  end.

(** Calls made one after the other, first call first. *)
Definition calls (os : list Op) (m : t) : t :=
  fold_left (fun acc o => call o acc) os m.

End StateManager.

(** ** [BrowserBot]: the loop of [run] and [buildResult] *)

Module BrowserBot.
Import StateManager.

(** What one pass through the [try] block amounts to for the loop: either
    an exception reaches the [catch] clause (prompt building, streaming or
    evaluation threw), or [evaluateResponse] returned its two flags. *)
Inductive Turn : Type :=
| Raised
| Evaluated (isComplete isFailed : bool).

(** [options?.maxFailures ?? 3] *)
Definition maxFailuresOf (options : option RunOptions) : Z :=
  nullish (match options with
           | Some o => opt_maxFailures o
           | None => None
           end) 3.

(** The state manager [run] works on: a new one when [options?.maxSteps] is
    truthy, the object's current one otherwise. *)
Definition initStateManager (current : t) (options : option RunOptions) : t :=
  match options with
  | Some {| opt_maxSteps := Some n |} =>
      if n =? 0 then current
      else constructor (mkConfig (Some n) None)
  | _ => current
  end.

(** One iteration of the [while] body; the flag tells whether it left the
    loop through [break].  [turns] gives the outcome of the turn run at a
    given step number. *)
Definition iteration (options : option RunOptions) (turns : Z -> Turn)
    (m : t) : t * bool :=
  let m := nextStep m in
  let step := getCurrentStep m in
  match turns step with
  | Evaluated true _ => (markComplete m, true)
  | Evaluated false true => (markFailed m, true)
  | Evaluated false false => (recordSuccess m, false)
  | Raised =>
      let m := recordFailure m in
      if getConsecutiveFailures m >=? maxFailuresOf options then (m, true)
      else (m, false)
  end.

Definition budget (m : t) : nat := Z.to_nat (getMaxSteps m - getCurrentStep m).

(** [while (this.stateManager.shouldContinue()) { ... }] *)
Equations? loop (options : option RunOptions) (turns : Z -> Turn) (m : t) : t
  by wf (budget m) lt :=
  loop options turns m with inspect (shouldContinue m) := {
    | exist _ true Hcont with inspect (iteration options turns m) := {
        | exist _ (m', true) Hit := m';
        | exist _ (m', false) Hit := loop options turns m' };
    | exist _ false Hcont := m }.
Proof.
  revert Hcont Hit.
  unfold shouldContinue, iteration, budget, getMaxSteps, getCurrentStep.
  destruct m as [[cs ms cf d st] th]; cbn.
  destruct st; [discriminate|]. destruct d; [discriminate|].
  destruct (Z.geb_spec cs ms); [discriminate|]. intros _.
  destruct (turns (cs + 1)) as [|[] []]; cbn; try discriminate.
  - destruct (_ >=? maxFailuresOf _); [discriminate|].
    intros [= <-]. cbn. lia.
  - intros [= <-]. cbn. lia.
Qed.

Definition exitReasonName (r : ExitReason) : string :=
  match r with
  | success => "success"
  | max_steps => "max_steps"
  | max_failures => "max_failures"
  | user_interrupt => "user_interrupt"
  | error => "error"
  end.

Definition buildResult (m : t) : TaskResult :=
  let s := getState m in
  let exitReason := getExitReason m in
  {| res_success := isDone s;
     res_message :=
       match exitReason with
       | success => "Task completed successfully"
       | _ => "Task stopped: " ++ exitReasonName exitReason
       end;
     res_stepsTaken := currentStep s;
     res_exitReason := exitReason |}.

(** [run] on an object whose state manager is [current] (a fresh
    [new BrowserBot()] has [constructor emptyConfig]).  The media-task
    epilogue only waits for the user and does not touch the result. *)
Definition run (current : t) (options : option RunOptions)
    (turns : Z -> Turn) : TaskResult :=
  buildResult (loop options turns (initStateManager current options)).

Definition fresh : t := constructor emptyConfig.

End BrowserBot.


(** ** JavaScript strings and the built-ins the trimmer calls *)

Module JS.

(** A string is the list of its UTF-16 code units. *)
Definition jsstring : Type := list N.

(** A literal of the source, all of whose characters are ASCII. *)
Definition lit (s : string) : jsstring :=
  map N_of_ascii (list_ascii_of_string s).

Definition dquote : N := 34.
Definition newline : N := 10.
Definition space : N := 32.
Definition tab : N := 9.
Definition arrow : N := 8594.   (* U+2192 *)

Definition quoted (s : jsstring) : jsstring := dquote :: s ++ [dquote].

Definition inRange (lo hi c : N) : bool := ((lo <=? c) && (c <=? hi))%N.

(** WhiteSpace and LineTerminator of ECMAScript: what [trim] strips and what
    [\s] matches. *)
Definition isWhiteSpace (c : N) : bool :=
  inRange 9 13 c || (c =? 32)%N || (c =? 160)%N || (c =? 5760)%N ||
  inRange 8192 8202 c || (c =? 8232)%N || (c =? 8233)%N || (c =? 8239)%N ||
  (c =? 8287)%N || (c =? 12288)%N || (c =? 65279)%N.

(** [\w] *)
Definition isWordChar (c : N) : bool :=
  inRange 97 122 c || inRange 65 90 c || inRange 48 57 c || (c =? 95)%N.

Fixpoint dropWhile (p : N -> bool) (s : jsstring) : jsstring :=
  match s with
  | c :: s' => if p c then dropWhile p s' else s
  | [] => []
  end.

Definition trimStart (s : jsstring) : jsstring := dropWhile isWhiteSpace s.
Definition trimEnd (s : jsstring) : jsstring :=
  rev (dropWhile isWhiteSpace (rev s)).
Definition trim (s : jsstring) : jsstring := trimEnd (trimStart s).

Fixpoint startsWith (s prefix : jsstring) {struct prefix} : bool :=
  match prefix, s with
  | [], _ => true
  | p :: prefix', c :: s' => (c =? p)%N && startsWith s' prefix'
  | _ :: _, [] => false
  end.

Fixpoint includes (s sub : jsstring) : bool :=
  startsWith s sub ||
  match s with
  | _ :: s' => includes s' sub
  | [] => false
  end.

(** The leftmost occurrence of [sep] in [s]: what is before it and what is
    after it. *)
Fixpoint cut (sep s : jsstring) : option (jsstring * jsstring) :=
  if startsWith s sep then Some ([], skipn (List.length sep) s)
  else match s with
       | c :: s' =>
           match cut sep s' with
           | Some (before, after) => Some (c :: before, after)
           | None => None
           end
       | [] => None
       end.

Fixpoint splitFuel (fuel : nat) (sep s : jsstring) : list jsstring :=
  match fuel with
  | O => [s]
  | S fuel' =>
      match cut sep s with
      | Some (before, after) => before :: splitFuel fuel' sep after
      | None => [s]
      end
  end.

(** [s.split(sep)] for a separator that is not empty (the source only
    splits on ['\n'], ['URL:'] and ['Title:']).  Each cut removes at least
    one character, so [List.length s] rounds are enough. *)
Definition split (s sep : jsstring) : list jsstring :=
  splitFuel (List.length s) sep s.

Fixpoint join (sep : jsstring) (parts : list jsstring) : jsstring :=
  match parts with
  | [] => []
  | [p] => p
  | p :: rest => p ++ sep ++ join sep rest
  end.

(** [toLowerCase], as far as the trimmer can observe it.  The result is only
    searched for keywords made of ASCII letters and spaces; ASCII and
    Latin-1 capitals are mapped as ECMAScript does, and so are the two other
    code units whose lowercase form contains an ASCII letter (U+0130 and
    U+212A); every other code unit is kept as it is. *)
Definition lowerUnit (c : N) : jsstring :=
  if inRange 65 90 c then [(c + 32)%N]
  else if inRange 192 214 c || inRange 216 222 c then [(c + 32)%N]
  else if (c =? 304)%N then [105; 775]%N
  else if (c =? 8490)%N then [107]%N
  else [c].

Definition toLowerCase (s : jsstring) : jsstring := flat_map lowerUnit s.

(** [`${n}`] for a count. *)
Definition numberToString (n : nat) : jsstring :=
  lit (NilEmpty.string_of_uint (Nat.to_uint n)).

(** *** Regular expressions

    The patterns of the source use literals, character classes, greedy
    repetitions of a class, an optional character and one capture group.
    [exec] is the backtracking matcher: the continuation gets the rest of
    the input and the capture so far, and a repetition first tries to take
    one more character. *)
Inductive regex : Type :=
| Lit (text : jsstring)
| Many (class : N -> bool)            (* class*  *)
| Many1 (class : N -> bool)           (* class+  *)
| Opt (c : N)                         (* c?      *)
| Group (r : regex)                   (* ( r )   *)
| Seq (r1 r2 : regex).

Fixpoint many {R : Type} (class : N -> bool) (s : jsstring)
    (k : jsstring -> option R) : option R :=
  match s with
  | c :: s' =>
      if class c then
        match many class s' k with
        | Some r => Some r
        | None => k s
        end
      else k s
  | [] => k s
  end.

Fixpoint exec {R : Type} (r : regex) (s : jsstring) (cap : option jsstring)
    (k : jsstring -> option jsstring -> option R) : option R :=
  match r with
  | Lit text =>
      if startsWith s text then k (skipn (List.length text) s) cap else None
  | Many class => many class s (fun s' => k s' cap)
  | Many1 class =>
      match s with
      | c :: s' => if class c then many class s' (fun s'' => k s'' cap) else None
      | [] => None
      end
  | Opt c =>
      match s with
      | c' :: s' =>
          if (c' =? c)%N then
            match k s' cap with
            | Some res => Some res
            | None => k s cap
            end
          else k s cap
      | [] => k s cap
      end
  | Group r' =>
      exec r' s cap
        (fun s' _ => k s' (Some (firstn (List.length s - List.length s') s)))
  | Seq r1 r2 => exec r1 s cap (fun s' cap' => exec r2 s' cap' k)
  end.

(** A match attempt at the start of [s]; the result is the text of the
    capture group (the empty string when the pattern has none). *)
Definition matchHere (r : regex) (s : jsstring) : option jsstring :=
  exec r s None (fun _ cap => Some (match cap with Some c => c | None => [] end)).

(** The leftmost match, as [String.prototype.match] finds it for a pattern
    without flags. *)
Fixpoint search (r : regex) (s : jsstring) : option jsstring :=
  match matchHere r s with
  | Some c => Some c
  | None =>
      match s with
      | _ :: s' => search r s'
      | [] => None
      end
  end.

End JS.

(** ** [ResponseTrimmer] *)

Module ResponseTrimmer.
Import JS.

Record YAMLElement : Type := mkElement {
  type : jsstring;
  role : jsstring;
  name : jsstring;
  ref : jsstring;
  url : jsstring;
  visible : bool
}.

Definition SKIP_ROLES : list jsstring :=
  [lit "separator"; lit "none"; lit "presentation"; lit "generic"].

Definition INTERACTIVE_ROLES : list jsstring :=
  [lit "button"; lit "link"; lit "textbox"; lit "searchbox"; lit "combobox";
   lit "listbox"; lit "checkbox"; lit "radio"; lit "tab"; lit "menuitem";
   lit "option"; lit "slider"; lit "spinbutton"].

Definition SKIP_NAVIGATION_KEYWORDS : list jsstring :=
  [lit "skip to"; lit "skip navigation"; lit "keyboard shortcuts";
   lit "accessibility"].

Definition streq (a b : jsstring) : bool :=
  if list_eq_dec N.eq_dec a b then true else false.

(** [set.has(x)] *)
Definition has (set : list jsstring) (x : jsstring) : bool :=
  existsb (streq x) set.

(** A string used as a condition. *)
Definition nonEmpty (s : jsstring) : bool :=
  match s with
  | [] => false
  | _ :: _ => true
  end.

(** [getIndentLevel] *)
Fixpoint getIndentLevel (line : jsstring) : nat :=
  match line with
  | c :: rest =>
      if (c =? space)%N then S (getIndentLevel rest)
      else if (c =? tab)%N then S (S (getIndentLevel rest))
      else O
  | [] => O
  end.

(** [/^-\s+(\w+)/] *)
Definition roleRegex : regex :=
  Seq (Lit (lit "-")) (Seq (Many1 isWhiteSpace) (Group (Many1 isWordChar))).

(** [/\x22([^\x22]+)\x22/], writing \x22 for the double quote *)
Definition nameRegex : regex :=
  Seq (Lit [dquote])
      (Seq (Group (Many1 (fun c => negb (c =? dquote)%N))) (Lit [dquote])).

(** [/\[ref=(\w+)\]/] *)
Definition refRegex : regex :=
  Seq (Lit (lit "[ref=")) (Seq (Group (Many1 isWordChar)) (Lit (lit "]"))).

(** [/\/url:\s*\x22?([^\x22\s]+)\x22?/] *)
Definition urlRegex : regex :=
  Seq (Lit (lit "/url:"))
      (Seq (Many isWhiteSpace)
           (Seq (Opt dquote)
                (Seq (Group (Many1 (fun c => negb ((c =? dquote)%N
                                                  || isWhiteSpace c))))
                     (Opt dquote)))).

(** [/\(hidden\)/] *)
Definition hiddenRegex : regex := Lit (lit "(hidden)").

(** [m ? m[1] : ''] *)
Definition captureOrEmpty (m : option jsstring) : jsstring :=
  match m with
  | Some c => c
  | None => []
  end.

Definition parseYAMLLine (line : jsstring) : option YAMLElement :=
  match matchHere roleRegex line with
  | None => None
  | Some role =>
      Some {| type := lit "element";
              role := role;
              name := captureOrEmpty (search nameRegex line);
              ref := captureOrEmpty (search refRegex line);
              url := captureOrEmpty (search urlRegex line);
              visible := match search hiddenRegex line with
                         | Some _ => false
                         | None => true
                         end |}
  end.

Definition isInteractive (element : YAMLElement) : bool :=
  if negb (visible element) then false
  else if nonEmpty (role element) && has INTERACTIVE_ROLES (role element)
  then true
  else if nonEmpty (role element) && has SKIP_ROLES (role element)
  then false
  else if nonEmpty (url element) then true
  else if nonEmpty (name element) && (2 <? List.length (name element))%nat
  then true
  else false.

Definition formatElement (element : YAMLElement) : option jsstring :=
  if negb (nonEmpty (ref element)) then None
  else
    let parts := [lit "[" ++ ref element ++ lit "]"] in
    let parts :=
      if nonEmpty (role element) then parts ++ [role element] else parts in
    let parts :=
      if nonEmpty (name element)
      then parts ++ [quoted (name element)] else parts in
    let parts :=
      if nonEmpty (url element)
      then parts ++ [arrow :: space :: url element] else parts in
    Some (join [space] parts).

(** [line.split(key)[1]?.trim() || ''] *)
Definition afterKey (line key : jsstring) : jsstring :=
  match nth_error (split line key) 1 with
  | Some part => trim part
  | None => []
  end.

(** The first loop of [trimYAMLSnapshot]: URL and title from the first ten
    lines, a later line overriding an earlier one. *)
Definition headerStep (acc : jsstring * jsstring) (line : jsstring)
    : jsstring * jsstring :=
  let (url, title) := acc in
  if nonEmpty line && includes line (lit "URL:")
  then (afterKey line (lit "URL:"), title)
  else if nonEmpty line && includes line (lit "Title:")
  then (url, afterKey line (lit "Title:"))
  else (url, title).

Definition extractHeader (lines : list jsstring) : jsstring * jsstring :=
  fold_left headerStep (firstn 10 lines) ([], []).

Definition banner : jsstring :=
  lit "Interactive Elements (use ref value without brackets for Playwright tools):".

Definition initialOutput (url title : jsstring) : list jsstring :=
  (if nonEmpty url then [lit "URL: " ++ url] else []) ++
  (if nonEmpty title then [lit "Title: " ++ title] else []) ++
  [[]; banner; []].

(** The variables the second loop updates. *)
Record Filter : Type := mkFilter {
  inSkipSection : bool;
  skipDepth : nat;
  output : list jsstring
}.

(** The part of the loop body after the skip-section test: parse, filter,
    format, push. *)
Definition emit (st : Filter) (trimmedLine : jsstring) : Filter :=
  match parseYAMLLine trimmedLine with
  | None => st
  | Some element =>
      if negb (isInteractive element) then st
      else match formatElement element with
           | Some formatted =>
               if nonEmpty formatted
               then mkFilter (inSkipSection st) (skipDepth st)
                             (output st ++ [formatted])
               else st
           | None => st
           end
  end.

(** One round of [for (const line of lines)]. *)
Definition filterStep (st : Filter) (line : jsstring) : Filter :=
  let trimmedLine := trim line in
  if negb (nonEmpty trimmedLine) then st
  else if startsWith trimmedLine (lit "URL:")
          || startsWith trimmedLine (lit "Title:")
          || startsWith trimmedLine (lit "Page Loaded:")
  then st
  else
    let lowerLine := toLowerCase trimmedLine in
    if existsb (fun keyword => includes lowerLine keyword)
               SKIP_NAVIGATION_KEYWORDS
    then mkFilter true (getIndentLevel line) (output st)
    else if inSkipSection st then
      if (getIndentLevel line <=? skipDepth st)%nat
      then emit (mkFilter false (skipDepth st) (output st)) trimmedLine
      else st
    else emit st trimmedLine.

(** The [output] array just before the summary is added. *)
Definition filteredOutput (yamlText : jsstring) : list jsstring :=
  let lines := split yamlText [newline] in
  let (url, title) := extractHeader lines in
  output (fold_left filterStep lines
            (mkFilter false 0 (initialOutput url title))).

Definition summary (output : list jsstring) : jsstring :=
  lit "Total interactive elements: " ++
  numberToString
    (List.length (filter (fun l => startsWith l (lit "[")) output)).

(** The whole [output] array. *)
Definition outputLines (yamlText : jsstring) : list jsstring :=
  let output := filteredOutput yamlText ++ [[]] in
  output ++ [summary output].

Definition trimYAMLSnapshot (yamlText : jsstring) : jsstring :=
  join [newline] (outputLines yamlText).

(** *** The entry point and the values it is given

    [trimSnapshot] takes [any].  Values are the data JavaScript values:
    primitives, arrays and objects with data properties (distinct keys, in
    insertion order).  A call either returns or throws. *)
#[warnings="-register-all"]
Inductive JSValue : Type :=
| JSUndefined
| JSNull
| JSBool (b : bool)
| JSNumber (x : float)
| JSString (s : jsstring)
| JSArray (items : list JSValue)
| JSObject (props : list (jsstring * JSValue)).

Inductive JSError : Type :=
| TypeError.

Inductive completion (A : Type) : Type :=
| Normal (value : A)
| Throw (e : JSError).
Arguments Normal {A} value.
Arguments Throw {A} e.

Definition bind {A B : Type} (c : completion A) (f : A -> completion B)
    : completion B :=
  match c with
  | Normal v => f v
  | Throw e => Throw e
  end.

(** ToBoolean *)
Definition truthy (v : JSValue) : bool :=
  match v with
  | JSUndefined | JSNull => false
  | JSBool b => b
  | JSNumber x => negb (PrimFloat.eqb x PrimFloat.zero
                        || negb (PrimFloat.eqb x x))
  | JSString s => nonEmpty s
  | JSArray _ | JSObject _ => true
  end.

(** [Array.isArray] *)
Definition isArray (v : JSValue) : bool :=
  match v with
  | JSArray _ => true
  | _ => false
  end.

Fixpoint lookup (key : jsstring) (props : list (jsstring * JSValue))
    : option JSValue :=
  match props with
  | (k, v) :: rest => if streq k key then Some v else lookup key rest
  | [] => None
  end.

(** [v.key] for one of the keys [type] and [text]: reading a property of
    [null] or [undefined] throws; an object gives the property or
    [undefined]; the other values have no such property. *)
Definition getProp (v : JSValue) (key : jsstring) : completion JSValue :=
  match v with
  | JSUndefined | JSNull => Throw TypeError
  | JSObject props =>
      Normal (match lookup key props with
              | Some x => x
              | None => JSUndefined
              end)
  | _ => Normal JSUndefined
  end.

(** [v === 'text'] *)
Definition isTextTag (v : JSValue) : bool :=
  match v with
  | JSString s => streq s (lit "text")
  | _ => false
  end.

(** [this.trimYAMLSnapshot(text)] on a value: the first thing it does is
    [yamlText.split], which only a string has. *)
Definition callTrimYAMLSnapshot (text : JSValue) : completion jsstring :=
  match text with
  | JSString s => Normal (trimYAMLSnapshot s)
  | _ => Throw TypeError
  end.

Definition textItem (text : jsstring) : JSValue :=
  JSObject [(lit "type", JSString (lit "text")); (lit "text", JSString text)].

(** One round of [for (const item of response)]: the value pushed on
    [trimmedContent]. *)
Definition trimItem (item : JSValue) : completion JSValue :=
  bind (getProp item (lit "type")) (fun ty =>
    if isTextTag ty then
      bind (getProp item (lit "text")) (fun text =>
        if truthy text then
          bind (callTrimYAMLSnapshot text) (fun trimmedText =>
            Normal (textItem trimmedText))
        else Normal item)
    else Normal item).

Fixpoint trimItems (items : list JSValue) (trimmedContent : list JSValue)
    : completion (list JSValue) :=
  match items with
  | [] => Normal trimmedContent
  | item :: rest =>
      bind (trimItem item) (fun pushed =>
        trimItems rest (trimmedContent ++ [pushed]))
  end.

(** What the loop pushes for an item it can read: the replacement of a text
    item with text, the item itself otherwise. *)
Definition textOf (item : JSValue) : option jsstring :=
  match item with
  | JSObject props =>
      match lookup (lit "type") props, lookup (lit "text") props with
      | Some ty, Some (JSString s) =>
          if isTextTag ty && nonEmpty s then Some s else None
      | _, _ => None
      end
  | _ => None
  end.

Definition keepOrTrim (item : JSValue) : JSValue :=
  match textOf item with
  | Some s => textItem (trimYAMLSnapshot s)
  | None => item
  end.

(** The items the loop body can read: anything but [null] and [undefined],
    and, for an object tagged ['text'], a [text] that is a string or is
    falsy. *)
Definition contentItem (item : JSValue) : bool :=
  match item with
  | JSUndefined | JSNull => false
  | JSObject props =>
      match lookup (lit "type") props with
      | Some ty =>
          if isTextTag ty then
            match lookup (lit "text") props with
            | Some (JSString _) | None => true
            | Some v => negb (truthy v)
            end
          else true
      | None => true
      end
  | _ => true
  end.

Definition trimSnapshot (response : JSValue) : completion JSValue :=
  if negb (truthy response) || negb (isArray response) then Normal response
  else
    match response with
    | JSArray items =>
        bind (trimItems items []) (fun trimmedContent =>
          Normal (JSArray trimmedContent))
    | _ => Normal response
    end.

End ResponseTrimmer.


(** ** The rest of the tracker and of the agent's turn *)

Module StateManagerRest.
Import StateManager.

(** [reset] *)
Definition reset (m : t) : t :=
  with_state m
    {| currentStep := 0;
       maxSteps := maxSteps (state m);
       consecutiveFailures := 0;
       isDone := false;
       shouldStop := false |}.

End StateManagerRest.

(** [PromptBuilder.parseResponse]: the two verdict flags.  (The three
    sections it also extracts, [observation], [reasoning] and [action], are
    computed from the response alone and are not read by the agent.)  The
    keywords are ASCII, so [JS.toLowerCase] is exact for the search. *)
Module PromptBuilder.
Import JS.

Record Parsed : Type := mkParsed {
  isComplete : bool;
  isFailed : bool
}.

Definition completionSignals : list jsstring :=
  [lit "task complete"; lit "successfully completed"; lit "task finished"].

Definition failureSignals : list jsstring :=
  [lit "task failed"; lit "cannot complete"; lit "unable to proceed"].

Definition parseResponse (response : jsstring) : Parsed :=
  let lowerResponse := toLowerCase response in
  {| isComplete :=
       includes lowerResponse (lit "task complete")
       || includes lowerResponse (lit "successfully completed")
       || includes lowerResponse (lit "task finished");
     isFailed :=
       includes lowerResponse (lit "task failed")
       || includes lowerResponse (lit "cannot complete")
       || includes lowerResponse (lit "unable to proceed") |}.

End PromptBuilder.

(** [BrowserBot.streamLLMDecision] and [BrowserBot.evaluateResponse], and
    with them what a turn of the loop is made of. *)
Module BrowserBotTurn.
Import JS BrowserBot.

(** [StreamChunk] of [NeuroLinkClient.ts], the fields the loop reads. *)
Inductive ToolEvent : Type :=
| tool_start
| tool_end.

Record ToolExecution : Type := mkToolExecution {
  te_type : ToolEvent;
  te_tool : jsstring;
  te_error : option jsstring
}.

Record StreamChunk : Type := mkChunk {
  chunk_content : option jsstring;
  chunk_toolExecution : option ToolExecution
}.

(** What the provider does when asked for a stream: the call itself throws,
    or it gives chunks and then either ends or throws. *)
Inductive Provider : Type :=
| CallThrows
| Streams (chunks : list StreamChunk) (thenThrows : bool).

(** The body of [for await (const chunk of streamResponse.stream)], on the
    pair of [accumulatedResponse] and [toolsUsed]. *)
Definition chunkStep (acc : jsstring * list jsstring) (chunk : StreamChunk)
    : jsstring * list jsstring :=
  let (accumulatedResponse, toolsUsed) := acc in
  let accumulatedResponse :=
    match chunk_content chunk with
    | Some content => accumulatedResponse ++ content
    | None => accumulatedResponse
    end in
  let toolsUsed :=
    match chunk_toolExecution chunk with
    | Some toolExecution =>
        match te_type toolExecution with
        | tool_start =>
            if ResponseTrimmer.has toolsUsed (te_tool toolExecution)
            then toolsUsed
            else toolsUsed ++ [te_tool toolExecution]
        | tool_end => toolsUsed
        end
    | None => toolsUsed
    end in
  (accumulatedResponse, toolsUsed).

Definition consume (chunks : list StreamChunk) : jsstring * list jsstring :=
  fold_left chunkStep chunks ([], []).

(** The tools the loop has seen start (it prints them). *)
Definition toolsUsed (chunks : list StreamChunk) : list jsstring :=
  snd (consume chunks).

(** [streamLLMDecision]: the accumulated text, or [None] when an exception
    leaves the function. *)
Definition streamLLMDecision (provider : Provider) : option jsstring :=
  match provider with
  | CallThrows => None
  | Streams chunks thenThrows =>
      if thenThrows then None else Some (fst (consume chunks))
  end.

Record Evaluation : Type := mkEvaluation {
  ev_isComplete : bool;
  ev_isFailed : bool;
  ev_message : string
}.

Definition evaluateResponse (response : jsstring) : Evaluation :=
  let parsed := PromptBuilder.parseResponse response in
  if PromptBuilder.isComplete parsed then
    mkEvaluation true false "Task completed successfully"
  else if PromptBuilder.isFailed parsed then
    mkEvaluation false true "Task failed or cannot be completed"
  else mkEvaluation false false "Continuing...".

(** The [try] block of the loop body as the loop sees it. *)
Definition turn (provider : Provider) : Turn :=
  match streamLLMDecision provider with
  | None => Raised
  | Some llmResponse =>
      let evaluation := evaluateResponse llmResponse in
      Evaluated (ev_isComplete evaluation) (ev_isFailed evaluation)
  end.

(** [run] against a provider that answers the turn of each step. *)
Definition runWith (current : StateManager.t) (options : option RunOptions)
    (provider : Z -> Provider) : TaskResult :=
  run current options (fun step => turn (provider step)).

End BrowserBotTurn.

(** ** [ConversationHistory] *)

Module ConversationHistory.
Import JS.

Inductive MessageRole : Type :=
| system
| user
| assistant.

(** [ConversationMessage]; a time stamp is a number of milliseconds. *)
Record ConversationMessage : Type := mkMessage {
  role : MessageRole;
  content : jsstring;
  toolResults : option (list ResponseTrimmer.JSValue);
  timestamp : option Z;
  stepNumber : option Z
}.

(** The object: its [messages] array and [startedAt]. *)
Record t : Type := mk {
  messages : list ConversationMessage;
  startedAt : Z
}.

(** [new ConversationHistory()] at the time [now] *)
Definition constructor (now : Z) : t := mk [] now.

Definition push (h : t) (message : ConversationMessage) : t :=
  mk (messages h ++ [message]) (startedAt h).

Definition addUserMessage (h : t) (now : Z) (content : jsstring)
    (stepNumber : option Z) : t :=
  push h (mkMessage user content None (Some now) stepNumber).

Definition addAssistantMessage (h : t) (now : Z) (content : jsstring)
    (stepNumber : option Z) (toolResults : option (list ResponseTrimmer.JSValue))
    : t :=
  push h (mkMessage assistant content toolResults (Some now) stepNumber).

Definition addSystemMessage (h : t) (now : Z) (content : jsstring) : t :=
  push h (mkMessage system content None (Some now) None).

Definition getMessages (h : t) : list ConversationMessage := messages h.

(** [array.slice(start)] for an integer [start]: a negative [start] counts
    from the end, and either way it is clamped to the array. *)
Definition slice {A : Type} (l : list A) (start : Z) : list A :=
  let len := Z.of_nat (List.length l) in
  let k := if start <? 0 then Z.max (len + start) 0 else Z.min start len in
  skipn (Z.to_nat k) l.

Definition getRecentMessages (h : t) (count : Z) : list ConversationMessage :=
  slice (messages h) (- count).

Definition getTotalMessages (h : t) : Z := Z.of_nat (List.length (messages h)).

Definition clear (h : t) : t := mk [] (startedAt h).

Definition isAssistant (m : ConversationMessage) : bool :=
  match role m with
  | assistant => true
  | _ => false
  end.

Definition getActionsTaken (h : t) : list jsstring :=
  filter (fun content => includes content (lit "Action:")
                         || includes content (lit "Tool:"))
         (map content (filter isAssistant (messages h))).

Definition completionKeywords : list jsstring :=
  [lit "task complete"; lit "successfully completed"; lit "done";
   lit "finished"; lit "accomplished"; lit "message sent";
   lit "action completed"].

Definition looksComplete (h : t) : bool :=
  let recentMessages := getRecentMessages h 3 in
  let recentContent :=
    join [space] (map (fun m => toLowerCase (content m)) recentMessages) in
  existsb (fun keyword => includes recentContent keyword) completionKeywords.

(** [truncateContent], for an integer [maxSize] (the count of what is left
    out is positive and is printed in decimal). *)
Definition truncateContent (content : jsstring) (maxSize : Z) : jsstring :=
  if Z.of_nat (List.length content) <=? maxSize then content
  else
    let omitted := Z.of_nat (List.length content) - maxSize in
    firstn (Z.to_nat maxSize) content
    ++ [newline; newline] ++ lit "... [Truncated: "
    ++ numberToString (Z.to_nat omitted)
    ++ lit " characters omitted to prevent context overflow]".

Record NeuroLinkMessage : Type := mkNeuroLinkMessage {
  nl_role : MessageRole;
  nl_content : jsstring
}.

Definition isUserOrAssistant (m : ConversationMessage) : bool :=
  match role m with
  | user | assistant => true
  | system => false
  end.

(** [getMessagesForNeuroLink(maxMessages?, maxContentSize = 60000)] *)
Definition getMessagesForNeuroLink (h : t) (maxMessages : option Z)
    (maxContentSize : option Z) : list NeuroLinkMessage :=
  let maxContentSize := nullish maxContentSize 60000 in
  let messages :=
    match maxMessages with
    | Some n => if negb (n =? 0) && (n >? 0) then slice (messages h) (- n)
                else messages h
    | None => messages h
    end in
  map (fun msg => mkNeuroLinkMessage (role msg)
                    (truncateContent (content msg) maxContentSize))
      (filter isUserOrAssistant messages).

End ConversationHistory.

(** * Vocabulary of the properties *)

Module TrackerStatements.
Import StateManager BrowserBot.

(** The call sequence of the second half of C5: [k] failures, one success,
    [k] more failures. *)
Definition failuresAroundSuccess (k : nat) : list Op :=
  repeat OpRecordFailure k ++ OpRecordSuccess :: repeat OpRecordFailure k.

(** What C5 says of a tracker [m] whose threshold is [t]: [t] failures in
    a row stop it with [max_failures], and no prefix of [t-1] failures, a
    success and [t-1] failures does. *)
Definition thresholdBehaviour (t : Z) (m : StateManager.t) : Prop :=
  (shouldStop (state (calls (repeat OpRecordFailure (Z.to_nat t)) m)) = true /\
   getExitReason (calls (repeat OpRecordFailure (Z.to_nat t)) m)
     = max_failures) /\
  (forall j : nat,
     shouldStop
       (state (calls (firstn j (failuresAroundSuccess (Z.to_nat (t - 1)))) m))
     = false).

(** A turn that neither throws nor gives a verdict. *)
Definition quiet (turns : Z -> Turn) : Prop :=
  forall step, turns step = Evaluated false false.

(** What C3 says of a new tracker [m0] with a budget of [n] steps:
    [shouldContinue] holds after [k] calls of [nextStep] exactly when
    [k < n], so a driver that calls [nextStep] while it holds stops after
    [n] calls, with [currentStep = n] and the exit reason [max_steps]; and
    the loop of [run], which is such a driver when no turn throws or gives a
    verdict, ends in that state. *)
Definition stopsAtBudget (n : Z) (options : option RunOptions)
    (turns : Z -> Turn) (m0 : StateManager.t) : Prop :=
  (forall k : nat,
     shouldContinue (Nat.iter k nextStep m0) = (Z.of_nat k <? n)) /\
  (let m := Nat.iter (Z.to_nat n) nextStep m0 in
   currentStep (state m) = n /\ getExitReason m = max_steps) /\
  (let m := loop options turns m0 in
   shouldContinue m = false /\
   currentStep (state m) = n /\ getExitReason m = max_steps).

End TrackerStatements.

Module TrimmerStatements.
Import JS ResponseTrimmer.

(** A capture made of characters that satisfy [P]. *)
Definition capOk (P : N -> Prop) (cap : option jsstring) : Prop :=
  match cap with
  | Some c => Forall P c
  | None => True
  end.

(** Where an element comes from and what is known of it once it has been
    pushed: a line of the input parsed to it, it passed [isInteractive], so
    it is not marked hidden, and [formatElement] printed it, so it has a
    reference id. *)
Definition emittedFrom (lines : list jsstring) (formatted : jsstring) : Prop :=
  exists (line : jsstring) (element : YAMLElement),
    In line lines /\
    parseYAMLLine (trim line) = Some element /\
    isInteractive element = true /\
    formatElement element = Some formatted.

(** A line without a line break. *)
Definition noNewline (s : jsstring) : Prop := Forall (fun c => c <> newline) s.

Definition zeroCount : jsstring := lit "Total interactive elements: 0".

(** An output in which no element line stands. *)
Definition bareOutput (url title : jsstring) : list jsstring :=
  initialOutput url title ++ [[]; zeroCount].

Definition urlKey : jsstring := lit "URL:".
Definition titleKey : jsstring := lit "Title:".

(** What the first loop leaves in [url] and [title]. *)
Record cleanHeader (url title : jsstring) : Prop := {
  url_trimmed : trim url = url;
  url_no_urlKey : includes url urlKey = false;
  title_trimmed : trim title = title;
  title_no_urlKey : includes title urlKey = false;
  title_no_titleKey : includes title titleKey = false
}.

(** A snapshot of one button, and a content item that is not text. *)
Definition okButton : jsstring :=
  lit "- button " ++ quoted (lit "OK") ++ lit " [ref=e1]".

Definition imageItem : JSValue :=
  JSObject [(lit "type", JSString (lit "image")); (lit "data", JSString (lit "AAAA"))].

End TrimmerStatements.

Module FurtherStatements.
Import JS StateManager BrowserBot.

(** The turns before step [n] neither throw nor give a verdict. *)
Definition quietBefore (turns : Z -> Turn) (n : Z) : Prop :=
  forall k, 1 <= k < n -> turns k = Evaluated false false.

(** The step budget a new agent runs with under [options]. *)
Definition budgetOf (options : option RunOptions) : Z :=
  maxSteps (state (initStateManager fresh options)).

(** The tracker of a new agent after [c] quiet rounds of a budget of [ms]
    steps. *)
Definition advanced (ms c : Z) : StateManager.t :=
  {| state := {| currentStep := c; maxSteps := ms; consecutiveFailures := 0;
                 isDone := false; shouldStop := false |};
     maxConsecutiveFailures := 3 |}.

(** The text fragment of a chunk, and the tools whose start the chunks
    announce, in order. *)
Definition contentOf (chunk : BrowserBotTurn.StreamChunk) : jsstring :=
  match BrowserBotTurn.chunk_content chunk with
  | Some content => content
  | None => []
  end.

Definition startedTool (chunk : BrowserBotTurn.StreamChunk) : list jsstring :=
  match BrowserBotTurn.chunk_toolExecution chunk with
  | Some toolExecution =>
      match BrowserBotTurn.te_type toolExecution with
      | BrowserBotTurn.tool_start => [BrowserBotTurn.te_tool toolExecution]
      | BrowserBotTurn.tool_end => []
      end
  | None => []
  end.

(** The notice [truncateContent] puts after the part it keeps, for a count
    of code units left out. *)
Definition truncationNotice (omitted : Z) : jsstring :=
  [newline; newline] ++ lit "... [Truncated: "
  ++ numberToString (Z.to_nat omitted)
  ++ lit " characters omitted to prevent context overflow]".

(** [emitted] lists prints of elements of [lines], at most one for a line,
    in the order of the lines. *)
Inductive printedFrom : list jsstring -> list jsstring -> Prop :=
| printed_none : printedFrom [] []
| printed_skip (line : jsstring) (lines emitted : list jsstring) :
    printedFrom lines emitted -> printedFrom (line :: lines) emitted
| printed_keep (line formatted : jsstring) (lines emitted : list jsstring)
      (element : ResponseTrimmer.YAMLElement) :
    ResponseTrimmer.parseYAMLLine (trim line) = Some element ->
    ResponseTrimmer.isInteractive element = true ->
    ResponseTrimmer.formatElement element = Some formatted ->
    printedFrom lines emitted ->
    printedFrom (line :: lines) (formatted :: emitted).

(** The test of the second loop for a skip keyword. *)
Definition hasSkipKeyword (line : jsstring) : bool :=
  existsb (fun keyword => includes (toLowerCase (trim line)) keyword)
          ResponseTrimmer.SKIP_NAVIGATION_KEYWORDS.

(** A line that reaches that test and passes it: it is not blank and not a
    metadata line, and it holds a skip keyword. *)
Definition opensSkipSection (line : jsstring) : bool :=
  ResponseTrimmer.nonEmpty (trim line)
  && negb (startsWith (trim line) (lit "URL:")
           || startsWith (trim line) (lit "Title:")
           || startsWith (trim line) (lit "Page Loaded:"))
  && hasSkipKeyword line.

(** A line below a header at indentation [depth]: indented deeper, and
    without a skip keyword of its own. *)
Definition nestedBelow (depth : nat) (line : jsstring) : Prop :=
  (depth < ResponseTrimmer.getIndentLevel line)%nat /\
  hasSkipKeyword line = false.

(** An element line as the snapshot writes it: a dash, the role, the quoted
    name and the reference. *)
Definition elementLine (role name ref : jsstring) : jsstring :=
  lit "- " ++ role ++ [space] ++ quoted name ++ lit " [ref=" ++ ref ++ lit "]".

(** A role or a reference: one or more word characters. *)
Definition word (s : jsstring) : bool :=
  ResponseTrimmer.nonEmpty s && forallb isWordChar s.

(** A name that can stand between the quotes: it is not empty, holds no
    double quote, and none of the texts the other patterns look for. *)
Definition plainName (name : jsstring) : bool :=
  ResponseTrimmer.nonEmpty name
  && forallb (fun c => negb (c =? dquote)%N) name
  && negb (includes name (lit "[ref="))
  && negb (includes name (lit "/url:"))
  && negb (includes name (lit "(hidden)")).

(** What the trimmer prints for an element with these three fields. *)
Definition printedElement (role name ref : jsstring) : jsstring :=
  lit "[" ++ ref ++ lit "] " ++ role ++ [space] ++ quoted name.

(** The same with [cf] failures in a row behind it. *)
Definition tracking (ms c cf : Z) (stop : bool) : StateManager.t :=
  {| state := {| currentStep := c; maxSteps := ms; consecutiveFailures := cf;
                 isDone := false; shouldStop := stop |};
     maxConsecutiveFailures := 3 |}.

End FurtherStatements.

(** * Properties *)

(** ** The progress tracker *)

Section StateManagerFacts.
Import StateManager BrowserBot TrackerStatements.

(** Each round of the loop uses up one step of the budget. *)
Lemma iteration_budget options turns m :
  shouldContinue m = true ->
  (budget (fst (iteration options turns m)) < budget m)%nat.
Proof.
  unfold shouldContinue, iteration, budget, getMaxSteps, getCurrentStep.
  destruct m as [[cs ms cf d st] th]; cbn.
  destruct st; [discriminate|]. destruct d; [discriminate|].
  destruct (Z.geb_spec cs ms); [discriminate|]. intros _.
  destruct (turns (cs + 1)) as [|[] []]; cbn; try lia.
  destruct (_ >=? maxFailuresOf _); cbn; lia.
Qed.

Lemma loop_unfold options turns m :
  loop options turns m =
  if shouldContinue m then
    if snd (iteration options turns m) then fst (iteration options turns m)
    else loop options turns (fst (iteration options turns m))
  else m.
Proof.
  funelim (loop options turns m).
  all: try rewrite Hcont; try rewrite Hit; cbn; reflexivity.
Qed.

(** Destructs a tracker into its five fields and its threshold. *)
Ltac tracker m :=
  let cs := fresh "cs" in let ms := fresh "ms" in let cf := fresh "cf" in
  let d := fresh "done" in let st := fresh "stop" in let th := fresh "th" in
  destruct m as [[cs ms cf d st] th]; cbn in *.

Ltac geb :=
  repeat match goal with
  | |- context [?a >=? ?b] => destruct (Z.geb_spec a b)
  | H : context [?a >=? ?b] |- _ => destruct (Z.geb_spec a b)
  end.

(** C2. [getExitReason] follows the priority order: [isDone] gives
    [success]; otherwise a failure count at or above the threshold gives
    [max_failures]; otherwise an exhausted step budget gives [max_steps];
    otherwise [shouldStop] gives [error]; otherwise [success]. *)
Theorem getExitReason_priority (m : t) :
  let s := state m in
  let th := maxConsecutiveFailures m in
  (isDone s = true -> getExitReason m = success) /\
  (isDone s = false -> consecutiveFailures s >= th ->
     getExitReason m = max_failures) /\
  (isDone s = false -> consecutiveFailures s < th ->
     currentStep s >= maxSteps s -> getExitReason m = max_steps) /\
  (isDone s = false -> consecutiveFailures s < th ->
     currentStep s < maxSteps s -> shouldStop s = true ->
     getExitReason m = error) /\
  (isDone s = false -> consecutiveFailures s < th ->
     currentStep s < maxSteps s -> shouldStop s = false ->
     getExitReason m = success).
Proof.
  tracker m. unfold getExitReason; cbn.
  repeat split; intros; subst; geb; try lia; reflexivity.
Qed.

(** One call, case by case over the five mutators. *)
Ltac by_cases_on_call o m :=
  tracker m; destruct o; cbn; repeat split; intros; subst; geb; auto; lia.

Lemma call_invariants_aux (o : Op) (m : t) :
  (shouldStop (state m) = true -> shouldStop (state (call o m)) = true) /\
  ((isDone (state m) = true -> shouldStop (state m) = true) ->
   isDone (state (call o m)) = true -> shouldStop (state (call o m)) = true) /\
  currentStep (state m) <= currentStep (state (call o m)) /\
  maxSteps (state (call o m)) = maxSteps (state m) /\
  maxConsecutiveFailures (call o m) = maxConsecutiveFailures m.
Proof. by_cases_on_call o m. Qed.

(** C4. Each of [nextStep], [recordSuccess], [recordFailure],
    [markComplete] and [markFailed] keeps a raised [shouldStop] raised,
    keeps "[isDone] implies [shouldStop]" true, and does not decrease
    [currentStep]. *)
Theorem call_preserves_invariants (o : Op) (m : t) :
  (shouldStop (state m) = true -> shouldStop (state (call o m)) = true) /\
  ((isDone (state m) = true -> shouldStop (state m) = true) ->
   isDone (state (call o m)) = true -> shouldStop (state (call o m)) = true) /\
  currentStep (state m) <= currentStep (state (call o m)).
Proof. by_cases_on_call o m. Qed.

Lemma call_preserves_invariants_witness :
  let m := call OpRecordFailure (StateManager.constructor emptyConfig) in
  shouldStop (state (call OpMarkFailed m)) = true /\
  shouldStop (state (call OpNextStep (call OpMarkFailed m))) = true /\
  currentStep (state m) <= currentStep (state (call OpNextStep m)).
Proof.
  cbv zeta.
  pose proof (call_preserves_invariants OpNextStep
                (call OpMarkFailed
                   (call OpRecordFailure (StateManager.constructor emptyConfig))))
    as [Hstop _].
  pose proof (call_preserves_invariants OpNextStep
                (call OpRecordFailure (StateManager.constructor emptyConfig)))
    as [_ [_ Hstep]].
  split; [reflexivity | split; [apply Hstop; reflexivity | exact Hstep]].
Defined.

(** The same over any sequence of calls. *)
Lemma calls_preserve_invariants (os : list Op) (m : t) :
  (shouldStop (state m) = true -> shouldStop (state (calls os m)) = true) /\
  ((isDone (state m) = true -> shouldStop (state m) = true) ->
   isDone (state (calls os m)) = true -> shouldStop (state (calls os m)) = true) /\
  currentStep (state m) <= currentStep (state (calls os m)).
Proof.
  revert m. induction os as [|o os IH]; intros m.
  - cbn. repeat split; auto; lia.
  - change (calls (o :: os) m) with (calls os (call o m)).
    destruct (call_invariants_aux o m) as (H1 & H2 & H3 & _).
    destruct (IH (call o m)) as (I1 & I2 & I3).
    split; [intros Hs; apply I1, H1, Hs | split].
    + intros Hinv. apply I2, H2, Hinv.
    + lia.
Qed.

Lemma calls_app (os1 os2 : list Op) (m : t) :
  calls (os1 ++ os2) m = calls os2 (calls os1 m).
Proof. apply fold_left_app. Qed.

(** [k] calls of [recordFailure] in a row: the count grows by [k] and
    [shouldStop] is raised as soon as the count has reached the threshold. *)
Lemma calls_recordFailure (k : nat) (m : t) :
  calls (repeat OpRecordFailure k) m =
  with_state m
    {| currentStep := currentStep (state m);
       maxSteps := maxSteps (state m);
       consecutiveFailures := consecutiveFailures (state m) + Z.of_nat k;
       isDone := isDone (state m);
       shouldStop :=
         shouldStop (state m) ||
         ((0 <? Z.of_nat k) &&
          (consecutiveFailures (state m) + Z.of_nat k
             >=? maxConsecutiveFailures m)) |}.
Proof.
  revert m. induction k as [|k IH]; intros m.
  - tracker m. unfold with_state; cbn.
    rewrite Z.add_0_r, orb_false_r. reflexivity.
  - change (calls (repeat OpRecordFailure (S k)) m)
      with (calls (repeat OpRecordFailure k) (recordFailure m)).
    rewrite IH. tracker m. unfold with_state; cbn.
    f_equal. f_equal; [lia|].
    destruct k as [|k].
    + cbn. rewrite orb_false_r. destruct stop; geb; try lia; reflexivity.
    + replace (0 <? Z.of_nat (S k)) with true by (symmetry; apply Z.ltb_lt; lia).
      replace (0 <? Z.of_nat (S (S k))) with true
        by (symmetry; apply Z.ltb_lt; lia).
      cbn [andb].
      destruct stop; geb; try lia; reflexivity.
Qed.

Lemma firstn_repeat_min {A : Type} (x : A) (j a : nat) :
  firstn j (repeat x a) = repeat x (Nat.min j a).
Proof.
  revert a. induction j as [|j IH]; intros [|a]; cbn; try reflexivity.
  rewrite IH. reflexivity.
Qed.

Lemma thresholdBehaviour_running (t : Z) (m : StateManager.t) :
  1 <= t ->
  maxConsecutiveFailures m = t ->
  consecutiveFailures (state m) = 0 ->
  isDone (state m) = false ->
  shouldStop (state m) = false ->
  thresholdBehaviour t m.
Proof.
  intros Ht Hth Hcf Hdone Hstop. split.
  - rewrite calls_recordFailure. tracker m. subst.
    unfold getExitReason; cbn.
    rewrite Z2Nat.id by lia.
    replace (0 <? t) with true by (symmetry; apply Z.ltb_lt; lia).
    geb; try lia. split; reflexivity.
  - intros j. unfold failuresAroundSuccess.
    set (a := Z.to_nat (t - 1)).
    rewrite firstn_app, repeat_length, firstn_repeat_min, calls_app.
    rewrite calls_recordFailure.
    assert (Hmin : Z.of_nat (Nat.min j a) <= t - 1) by (subst a; lia).
    destruct (j - a)%nat as [|i] eqn:Hi.
    + cbn [firstn calls fold_left]. tracker m. subst.
      destruct (0 <? _); geb; try lia; reflexivity.
    + cbn [firstn].
      change (calls (OpRecordSuccess :: ?os) ?x)
        with (calls os (recordSuccess x)).
      rewrite firstn_repeat_min, calls_recordFailure.
      assert (Hmin' : Z.of_nat (Nat.min i a) <= t - 1) by (subst a; lia).
      tracker m. subst.
      destruct (0 <? Z.of_nat (Nat.min j a)); geb; try lia;
        destruct (0 <? _); geb; try lia; reflexivity.
Qed.

(** C5. For every threshold [t >= 1], on a tracker configured with it
    (a new one, or a running one whose count is 0): [t] calls of
    [recordFailure] in a row raise [shouldStop] and make [getExitReason]
    answer [max_failures]; [recordSuccess] puts the count back to 0; and
    along [t-1] failures, one success and [t-1] more failures [shouldStop]
    is never raised, whatever prefix of the sequence has been run. *)
Theorem recordFailure_threshold (t : Z) :
  1 <= t ->
  (forall steps : option Z,
     thresholdBehaviour t (StateManager.constructor (mkConfig steps (Some t)))) /\
  (forall m : StateManager.t,
     consecutiveFailures (state (recordSuccess m)) = 0) /\
  (forall m : StateManager.t,
     maxConsecutiveFailures m = t ->
     consecutiveFailures (state m) = 0 ->
     isDone (state m) = false ->
     shouldStop (state m) = false ->
     thresholdBehaviour t m).
Proof.
  intros Ht. split; [|split].
  - intros steps. apply thresholdBehaviour_running; (exact Ht || reflexivity).
  - intros m. reflexivity.
  - intros m. apply thresholdBehaviour_running, Ht.
Qed.

Lemma recordFailure_threshold_witness :
  let m := StateManager.constructor emptyConfig in
  (shouldStop (state (calls (repeat OpRecordFailure 3) m)) = true /\
   getExitReason (calls (repeat OpRecordFailure 3) m) = max_failures) /\
  (forall j : nat,
     shouldStop (state (calls (firstn j (failuresAroundSuccess 2)) m)) = false).
Proof.
  exact (proj1 (recordFailure_threshold 3 ltac:(lia)) None).
Defined.

(** [k] calls of [nextStep] in a row only move [currentStep]. *)
Lemma iter_nextStep (k : nat) (m : t) :
  Nat.iter k nextStep m =
  with_state m
    {| currentStep := currentStep (state m) + Z.of_nat k;
       maxSteps := maxSteps (state m);
       consecutiveFailures := consecutiveFailures (state m);
       isDone := isDone (state m);
       shouldStop := shouldStop (state m) |}.
Proof.
  induction k as [|k IH].
  - tracker m. unfold with_state; cbn. rewrite Z.add_0_r. reflexivity.
  - change (Nat.iter (S k) nextStep m) with (nextStep (Nat.iter k nextStep m)).
    rewrite IH. tracker m. unfold nextStep, with_state; cbn.
    do 2 f_equal. lia.
Qed.

(** The loop of [run] on quiet turns runs the step budget out and changes
    nothing else on a running tracker whose failure count is 0. *)
Lemma loop_quiet options turns (m : t) :
  quiet turns ->
  consecutiveFailures (state m) = 0 ->
  isDone (state m) = false ->
  shouldStop (state m) = false ->
  currentStep (state m) <= maxSteps (state m) ->
  loop options turns m =
  with_state m
    {| currentStep := maxSteps (state m);
       maxSteps := maxSteps (state m);
       consecutiveFailures := 0;
       isDone := false;
       shouldStop := false |}.
Proof.
  intros Hq.
  remember (budget m) as b eqn:Hb. revert m Hb.
  induction b as [b IH] using lt_wf_ind. intros m Hb Hcf Hdone Hstop Hle.
  rewrite loop_unfold.
  destruct (shouldContinue m) eqn:Hcont.
  - pose proof (iteration_budget options turns m Hcont) as Hlt.
    unfold iteration in *. rewrite Hq in *. cbn [fst snd] in *.
    rewrite (IH _ ltac:(subst b; exact Hlt) _ eq_refl).
    + tracker m. reflexivity.
    + reflexivity.
    + tracker m. assumption.
    + tracker m. assumption.
    + unfold shouldContinue in Hcont. tracker m. subst.
      geb; try discriminate; lia.
  - unfold shouldContinue in Hcont. tracker m. subst.
    geb; try discriminate. unfold with_state; cbn. do 2 f_equal. lia.
Qed.

Lemma stopsAtBudget_constructor (n : Z) (th : option Z) options turns :
  1 <= n -> 1 <= nullish th 3 -> quiet turns ->
  stopsAtBudget n options turns (StateManager.constructor (mkConfig (Some n) th)).
Proof.
  intros Hn Hth Hq. split; [|split].
  - intros k. rewrite iter_nextStep. unfold shouldContinue; cbn.
    destruct (Z.ltb_spec (Z.of_nat k) n); geb; try lia; reflexivity.
  - rewrite iter_nextStep. unfold getExitReason; cbn.
    rewrite Z2Nat.id by lia. geb; try lia. split; reflexivity.
  - rewrite (loop_quiet options turns
               (StateManager.constructor (mkConfig (Some n) th))
               Hq eq_refl eq_refl eq_refl)
      by (cbn; lia).
    unfold shouldContinue, getExitReason; cbn.
    geb; try lia. repeat split; reflexivity.
Qed.

(** The constructor keeps a threshold of 0 ([??] only replaces [null] and
    [undefined]), and [getExitReason] tests the threshold before the step
    budget: a tracker built with [maxConsecutiveFailures: 0] and a budget of
    three steps still stops after three calls of [nextStep], but its exit
    reason is [max_failures], with no failure recorded. *)
Lemma stops_with_zero_threshold :
  let m0 := StateManager.constructor (mkConfig (Some 3) (Some 0)) in
  let m := Nat.iter 3 nextStep m0 in
  shouldContinue (Nat.iter 2 nextStep m0) = true /\
  shouldContinue m = false /\
  currentStep (state m) = 3 /\
  consecutiveFailures (state m) = 0 /\
  getExitReason m = max_failures /\
  getExitReason (loop None (fun _ => Evaluated false false) m0) = max_failures /\
  ~ stopsAtBudget 3 None (fun _ => Evaluated false false) m0.
Proof.
  cbv zeta. repeat (split; [reflexivity|]).
  intros (_ & (_ & H) & _). cbn in H. discriminate H.
Qed.

(** C3, amended. For every [maxSteps >= 1] and a failure threshold of at
    least 1 (the default 3, with which [run] builds its tracker, or any
    configured one), the tracker built for that budget, on which
    [markComplete], [markFailed] and [recordFailure] are not called, stops
    exactly at [currentStep = maxSteps] with the exit reason [max_steps]. *)
Theorem stops_at_maxSteps (n : Z) options (turns : Z -> Turn) :
  1 <= n ->
  quiet turns ->
  stopsAtBudget n options turns
    (StateManager.constructor (mkConfig (Some n) None)) /\
  (forall th : Z,
     1 <= th ->
     stopsAtBudget n options turns
       (StateManager.constructor (mkConfig (Some n) (Some th)))).
Proof.
  intros Hn Hq. split.
  - apply stopsAtBudget_constructor; [exact Hn | cbn; lia | exact Hq].
  - intros th Hth. apply stopsAtBudget_constructor; assumption.
Qed.

Lemma stops_at_maxSteps_witness :
  let m0 := StateManager.constructor (mkConfig (Some 3) None) in
  (forall k : nat,
     shouldContinue (Nat.iter k nextStep m0) = (Z.of_nat k <? 3)) /\
  (let m := Nat.iter 3 nextStep m0 in
   currentStep (state m) = 3 /\ getExitReason m = max_steps) /\
  (let m := loop None (fun _ => Evaluated false false) m0 in
   shouldContinue m = false /\
   currentStep (state m) = 3 /\ getExitReason m = max_steps).
Proof.
  exact (proj1 (stops_at_maxSteps 3 None (fun _ => Evaluated false false)
                  ltac:(lia) (fun _ => eq_refl))).
Defined.

(** The first end-to-end scenario of the specification: [maxSteps = 3] and
    three quiet turns. *)
Example run_three_quiet_turns :
  run fresh (Some (mkRunOptions (Some 3) None)) (fun _ => Evaluated false false)
  = {| res_success := false;
       res_message := "Task stopped: max_steps";
       res_stepsTaken := 3;
       res_exitReason := max_steps |}.
Proof. reflexivity. Qed.

(** The second one: [maxSteps = 5], the second turn declares completion. *)
Example run_complete_at_turn_two :
  run fresh (Some (mkRunOptions (Some 5) None))
      (fun step => if step =? 2 then Evaluated true false
                   else Evaluated false false)
  = {| res_success := true;
       res_message := "Task completed successfully";
       res_stepsTaken := 2;
       res_exitReason := success |}.
Proof. reflexivity. Qed.

(** The tracker [run] works on never gets [options.maxFailures]: it is built
    by [new StateManager()] or [new StateManager({ maxSteps })], so its own
    threshold is the default 3 whatever the caller asked for. *)
Lemma initStateManager_threshold (options : option RunOptions) :
  maxConsecutiveFailures (initStateManager fresh options) = 3.
Proof.
  destruct options as [[[n|] mf]|]; cbn; try reflexivity.
  destruct (n =? 0); reflexivity.
Qed.

(** Two throwing turns under [maxFailures = 2], for a tracker of threshold 3
    with a budget of [ms] steps: the loop is left through [break] after the
    second turn (or earlier when the budget is shorter), with [shouldStop]
    still [false] and a count below the tracker's threshold. *)
Lemma loop_two_failures (ms : Z) (steps : option Z) (turns : Z -> Turn) :
  turns 1 = Raised ->
  turns 2 = Raised ->
  let m0 := StateManager.constructor (mkConfig (Some ms) None) in
  let m := loop (Some (mkRunOptions steps (Some 2))) turns m0 in
  maxConsecutiveFailures m = 3 /\
  isDone (state m) = false /\
  shouldStop (state m) = false /\
  maxSteps (state m) = ms /\
  currentStep (state m) = Z.max 0 (Z.min ms 2) /\
  consecutiveFailures (state m) = Z.max 0 (Z.min ms 2).
Proof.
  intros H1 H2 m0 m. subst m m0.
  rewrite loop_unfold. unfold shouldContinue at 1. cbn.
  destruct (Z.geb_spec 0 ms); [cbn; repeat split; lia|].
  unfold iteration. cbn. rewrite H1. cbn.
  rewrite loop_unfold. unfold shouldContinue at 1. cbn.
  destruct (Z.geb_spec 1 ms); [cbn; repeat split; lia|].
  unfold iteration. cbn. rewrite H2. cbn.
  repeat split; lia.
Qed.

(** C1 on the code.  A run of a new [BrowserBot] with [maxFailures = 2]
    whose first two turns throw never reports [max_failures], whatever
    [maxSteps] was asked for; with the default budget it takes two steps,
    reports failure ([success = false]) and yet gives the exit reason
    [success] with the message of a completed task. *)
Theorem run_two_failures (steps : option Z) (turns : Z -> Turn) :
  turns 1 = Raised ->
  turns 2 = Raised ->
  let r := run fresh (Some (mkRunOptions steps (Some 2))) turns in
  res_exitReason r <> max_failures /\
  res_success r = false /\
  (steps = None ->
   r = {| res_success := false;
          res_message := "Task completed successfully";
          res_stepsTaken := 2;
          res_exitReason := success |}).
Proof.
  intros H1 H2 r. subst r. unfold run, buildResult, getState.
  assert (Hinit : exists ms,
             initStateManager fresh (Some (mkRunOptions steps (Some 2)))
             = StateManager.constructor (mkConfig (Some ms) None)
             /\ (steps = None -> ms = 100)).
  { destruct steps as [n|]; cbn.
    - destruct (n =? 0).
      + exists 100. split; [reflexivity | discriminate].
      + exists n. split; [reflexivity | discriminate].
    - exists 100. split; reflexivity. }
  destruct Hinit as (ms & -> & Hms).
  destruct (loop_two_failures ms steps turns H1 H2)
    as (Hth & Hdone & Hstop & Hmax & Hcs & Hcf).
  cbv zeta in *.
  set (m := loop _ turns _) in *.
  tracker m. subst. unfold getExitReason; cbn.
  split; [|split].
  - geb; try lia; discriminate.
  - reflexivity.
  - intros Hs. specialize (Hms Hs). subst ms. reflexivity.
Qed.

Lemma run_two_failures_witness :
  let r := run fresh (Some (mkRunOptions None (Some 2))) (fun _ => Raised) in
  res_exitReason r <> max_failures /\
  res_success r = false /\
  r = {| res_success := false;
         res_message := "Task completed successfully";
         res_stepsTaken := 2;
         res_exitReason := success |}.
Proof.
  cbv zeta.
  destruct (run_two_failures None (fun _ => Raised) eq_refl eq_refl)
    as (Hexit & Hsucc & Hres).
  split; [exact Hexit | split; [exact Hsucc | exact (Hres eq_refl)]].
Defined.

(** C6 as stated fails: after three steps of a three-step budget
    [isLastStep] answers [true] although [currentStep] is not
    [maxSteps - 1]. *)
Lemma isLastStep_not_only_at_last :
  let m := Nat.iter 3 nextStep (StateManager.constructor (mkConfig (Some 3) None)) in
  isLastStep m = true /\ currentStep (state m) <> maxSteps (state m) - 1.
Proof. cbn. split; [reflexivity | discriminate]. Qed.

(** C6, amended. [isLastStep] answers [true] if and only if
    [currentStep >= maxSteps - 1]. *)
Theorem isLastStep_iff (m : t) :
  isLastStep m = true <-> currentStep (state m) >= maxSteps (state m) - 1.
Proof.
  unfold isLastStep. destruct (Z.geb_spec (currentStep (state m))
                                 (maxSteps (state m) - 1)).
  - split; [lia | reflexivity].
  - split; [discriminate | lia].
Qed.

End StateManagerFacts.

(** ** Strings *)

Section StringFacts.
Import JS TrimmerStatements.

Lemma startsWith_app (s prefix : jsstring) :
  startsWith s prefix = true <-> exists rest, s = prefix ++ rest.
Proof.
  revert s. induction prefix as [|p prefix IH]; intros s; cbn.
  - split; [intros _; exists s; reflexivity | reflexivity].
  - destruct s as [|c s]; [split; [discriminate | intros (r & H); discriminate]|].
    rewrite andb_true_iff, N.eqb_eq, IH. split.
    + intros (-> & r & ->). exists r. reflexivity.
    + intros (r & [= -> ->]). split; [reflexivity | exists r; reflexivity].
Qed.

Lemma skipn_prefix (prefix rest : jsstring) :
  skipn (List.length prefix) (prefix ++ rest) = rest.
Proof. induction prefix; cbn; auto. Qed.

Lemma startsWith_skipn (s prefix : jsstring) :
  startsWith s prefix = true -> s = prefix ++ skipn (List.length prefix) s.
Proof.
  intros H. apply startsWith_app in H as (r & ->).
  rewrite skipn_prefix. reflexivity.
Qed.

(** [cut] finds an occurrence, and the leftmost one. *)
Lemma cut_Some (sep s before after : jsstring) :
  cut sep s = Some (before, after) -> s = before ++ sep ++ after.
Proof.
  revert before. induction s as [|c s IH]; intros before; cbn [cut].
  - destruct (startsWith [] sep) eqn:Hs; [|discriminate].
    intros [= <- <-]. exact (startsWith_skipn _ _ Hs).
  - destruct (startsWith (c :: s) sep) eqn:Hs.
    + intros [= <- <-]. exact (startsWith_skipn _ _ Hs).
    + destruct (cut sep s) as [[b a]|]; [|discriminate].
      intros [= <- <-]. cbn. f_equal. apply IH. reflexivity.
Qed.

Lemma cut_None (sep s : jsstring) :
  cut sep s = None <-> includes s sep = false.
Proof.
  induction s as [|c s IH]; cbn [cut includes].
  - destruct (startsWith [] sep); cbn; split; congruence.
  - destruct (startsWith (c :: s) sep); cbn; [split; discriminate|].
    rewrite <- IH. destruct (cut sep s) as [[b a]|]; split; congruence.
Qed.

Lemma includes_app_r (pre s sub : jsstring) :
  includes (pre ++ s) sub = false -> includes s sub = false.
Proof.
  induction pre as [|c pre IH]; cbn [app includes]; [auto|].
  intros H. apply orb_false_iff in H as [_ H]. auto.
Qed.

Lemma startsWith_app_l (s post prefix : jsstring) :
  startsWith s prefix = true -> startsWith (s ++ post) prefix = true.
Proof.
  rewrite !startsWith_app. intros (r & ->). exists (r ++ post).
  rewrite app_assoc. reflexivity.
Qed.

Lemma includes_app_l (s post sub : jsstring) :
  includes (s ++ post) sub = false -> includes s sub = false.
Proof.
  induction s as [|c s IH]; cbn [app includes].
  - intros H. destruct (startsWith [] sub) eqn:Hs; [|reflexivity].
    apply (startsWith_app_l [] post) in Hs. cbn [app] in Hs.
    destruct post; cbn [includes] in H; rewrite Hs in H; discriminate.
  - intros H. apply orb_false_iff in H as [H1 H2].
    rewrite (IH H2), orb_false_r.
    destruct (startsWith (c :: s) sub) eqn:Hs; [|reflexivity].
    apply (startsWith_app_l _ post) in Hs. cbn [app] in Hs. congruence.
Qed.

(** A text without an occurrence has none in any of its parts. *)
Lemma includes_infix (pre s post sub : jsstring) :
  includes (pre ++ s ++ post) sub = false -> includes s sub = false.
Proof.
  intros H. apply includes_app_r in H. apply includes_app_l in H. exact H.
Qed.

Lemma cut_before (sep s before after : jsstring) :
  sep <> [] ->
  cut sep s = Some (before, after) -> includes before sep = false.
Proof.
  intros Hsep. revert before.
  induction s as [|c s IH]; intros before; cbn [cut].
  - destruct (startsWith [] sep); [|discriminate]. intros [= <- <-].
    destruct sep; [contradiction | reflexivity].
  - destruct (startsWith (c :: s) sep) eqn:Hs.
    + intros [= <- <-]. destruct sep; [contradiction | reflexivity].
    + destruct (cut sep s) as [[b a]|] eqn:Hcut; [|discriminate].
      intros [= <- <-]. cbn [includes].
      rewrite (IH b eq_refl), orb_false_r.
      destruct (startsWith (c :: b) sep) eqn:Hb; [|reflexivity].
      apply cut_Some in Hcut. subst s.
      apply (startsWith_app_l _ (sep ++ a)) in Hb. cbn [app] in Hb. congruence.
Qed.

Lemma cut_shorter (sep s before after : jsstring) :
  sep <> [] ->
  cut sep s = Some (before, after) ->
  (List.length after < List.length s)%nat.
Proof.
  intros Hsep H. apply cut_Some in H. subst s.
  rewrite !length_app. destruct sep; [contradiction | cbn; lia].
Qed.

(** More rounds than the length of the text change nothing. *)
Lemma splitFuel_enough (sep : jsstring) (fuel : nat) (s : jsstring) :
  sep <> [] ->
  (List.length s <= fuel)%nat ->
  splitFuel fuel sep s = split s sep.
Proof.
  intros Hsep. unfold split.
  remember (List.length s) as n eqn:Hn. revert fuel s Hn.
  induction n as [n IH] using lt_wf_ind. intros fuel s Hn Hle.
  destruct fuel as [|fuel], n as [|n]; cbn [splitFuel]; try reflexivity; try lia.
  - destruct s; [|discriminate]. cbn [cut].
    destruct sep; [contradiction | reflexivity].
  - destruct (cut sep s) as [[b a]|] eqn:Hcut; [|reflexivity].
    pose proof (cut_shorter sep s b a Hsep Hcut) as Hlt.
    f_equal.
    rewrite (IH (List.length a) ltac:(lia) fuel a eq_refl ltac:(lia)).
    rewrite (IH (List.length a) ltac:(lia) n a eq_refl ltac:(lia)).
    reflexivity.
Qed.

Lemma split_cut (sep s : jsstring) :
  sep <> [] ->
  split s sep =
  match cut sep s with
  | Some (before, after) => before :: split after sep
  | None => [s]
  end.
Proof.
  intros Hsep. unfold split at 1.
  destruct (List.length s) as [|n] eqn:Hn; cbn [splitFuel].
  - destruct s; [|discriminate]. cbn [cut].
    destruct sep; [contradiction | reflexivity].
  - destruct (cut sep s) as [[b a]|] eqn:Hcut; [|reflexivity].
    pose proof (cut_shorter sep s b a Hsep Hcut) as Hlt.
    rewrite splitFuel_enough by (assumption || lia). reflexivity.
Qed.

(** *** [trim] *)

Lemma dropWhile_app_last (p : N -> bool) (l : jsstring) (c : N) :
  p c = false -> exists l', dropWhile p (l ++ [c]) = l' ++ [c].
Proof.
  intros Hc. induction l as [|d l IH]; cbn.
  - rewrite Hc. exists []. reflexivity.
  - destruct (p d); [exact IH | exists (d :: l); reflexivity].
Qed.

Lemma dropWhile_idem (p : N -> bool) (s : jsstring) :
  dropWhile p (dropWhile p s) = dropWhile p s.
Proof.
  induction s as [|c s IH]; cbn; [reflexivity|].
  destruct (p c) eqn:Hc; [exact IH | cbn; rewrite Hc; reflexivity].
Qed.

Lemma dropWhile_suffix (p : N -> bool) (s : jsstring) :
  exists pre, s = pre ++ dropWhile p s.
Proof.
  induction s as [|c s (pre & IH)]; cbn; [exists []; reflexivity|].
  destruct (p c); [|exists []; reflexivity].
  exists (c :: pre). cbn. f_equal. exact IH.
Qed.

Lemma dropWhile_head (p : N -> bool) (s : jsstring) :
  match dropWhile p s with
  | c :: _ => p c = false
  | [] => True
  end.
Proof.
  induction s as [|c s IH]; cbn; [exact I|].
  destruct (p c) eqn:Hc; [exact IH | exact Hc].
Qed.

(** What [trimEnd] keeps of a text that starts with a visible character
    starts with that character. *)
Lemma trimEnd_cons (c : N) (s : jsstring) :
  isWhiteSpace c = false -> exists rest, trimEnd (c :: s) = c :: rest.
Proof.
  intros Hc. unfold trimEnd. cbn [rev].
  destruct (dropWhile_app_last isWhiteSpace (rev s) c Hc) as (l' & ->).
  exists (rev l'). rewrite rev_app_distr. reflexivity.
Qed.

Lemma trim_cons (c : N) (s : jsstring) :
  isWhiteSpace c = false -> exists rest, trim (c :: s) = c :: rest.
Proof.
  intros Hc. unfold trim, trimStart. cbn [dropWhile]. rewrite Hc.
  apply trimEnd_cons, Hc.
Qed.

Lemma trimEnd_idem (s : jsstring) : trimEnd (trimEnd s) = trimEnd s.
Proof.
  unfold trimEnd. rewrite rev_involutive, dropWhile_idem. reflexivity.
Qed.

Lemma trim_idem (s : jsstring) : trim (trim s) = trim s.
Proof.
  unfold trim at 1 3. unfold trim.
  pose proof (dropWhile_head isWhiteSpace s) as Hhead. fold (trimStart s) in Hhead.
  destruct (trimStart s) as [|c y] eqn:Hy; [reflexivity|].
  destruct (trimEnd_cons c y Hhead) as (rest & Hrest).
  rewrite Hrest at 1. unfold trimStart at 1. cbn [dropWhile]. rewrite Hhead.
  rewrite <- Hrest. apply trimEnd_idem.
Qed.

Lemma trim_space (s : jsstring) : trim (space :: s) = trim s.
Proof. reflexivity. Qed.

(** [trim] keeps a part of the text. *)
Lemma trim_infix (s : jsstring) : exists pre post, s = pre ++ trim s ++ post.
Proof.
  unfold trim, trimEnd.
  destruct (dropWhile_suffix isWhiteSpace s) as (pre & Hpre).
  fold (trimStart s) in Hpre |- *.
  destruct (dropWhile_suffix isWhiteSpace (rev (trimStart s))) as (post & Hpost).
  exists pre, (rev post).
  rewrite <- rev_app_distr, <- Hpost, rev_involutive. exact Hpre.
Qed.

(** *** Characters of the results come from the arguments *)

Section Characters.
Variable P : N -> Prop.

Lemma Forall_infix (pre s post : jsstring) :
  Forall P (pre ++ s ++ post) -> Forall P s.
Proof.
  intros H. apply Forall_app in H as [_ H]. apply Forall_app in H as [H _].
  exact H.
Qed.

Lemma Forall_skipn (n : nat) (s : jsstring) :
  Forall P s -> Forall P (skipn n s).
Proof.
  intros H. rewrite <- (firstn_skipn n s) in H.
  apply Forall_app in H as [_ H]. exact H.
Qed.

Lemma Forall_firstn (n : nat) (s : jsstring) :
  Forall P s -> Forall P (firstn n s).
Proof.
  intros H. rewrite <- (firstn_skipn n s) in H.
  apply Forall_app in H as [H _]. exact H.
Qed.

Lemma Forall_trim (s : jsstring) : Forall P s -> Forall P (trim s).
Proof.
  intros H. destruct (trim_infix s) as (pre & post & Heq).
  rewrite Heq in H. exact (Forall_infix _ _ _ H).
Qed.

Lemma Forall_cut (sep s before after : jsstring) :
  cut sep s = Some (before, after) ->
  Forall P s -> Forall P before /\ Forall P after.
Proof.
  intros Hcut H. apply cut_Some in Hcut. subst s.
  apply Forall_app in H as [Hb H]. apply Forall_app in H as [_ Ha]. auto.
Qed.

Lemma Forall_splitFuel (fuel : nat) (sep s : jsstring) :
  Forall P s -> Forall (Forall P) (splitFuel fuel sep s).
Proof.
  revert s. induction fuel as [|fuel IH]; intros s H; cbn.
  - constructor; [exact H | constructor].
  - destruct (cut sep s) as [[b a]|] eqn:Hcut.
    + destruct (Forall_cut _ _ _ _ Hcut H) as [Hb Ha].
      constructor; [exact Hb | apply IH, Ha].
    + constructor; [exact H | constructor].
Qed.

Lemma Forall_split (s sep : jsstring) :
  Forall P s -> Forall (Forall P) (split s sep).
Proof. apply Forall_splitFuel. Qed.

Lemma Forall_many {R : Type} (class : N -> bool) (s : jsstring)
    (k : jsstring -> option R) (res : R) :
  Forall P s ->
  many class s k = Some res ->
  exists s', Forall P s' /\ k s' = Some res.
Proof.
  induction s as [|c s IH]; intros H; cbn.
  - intros Hk. exists []. auto.
  - destruct (class c).
    + destruct (many class s k) as [r|] eqn:Hm.
      * intros [= <-]. apply IH; [|reflexivity]. exact (Forall_inv_tail H).
      * intros Hk. exists (c :: s). auto.
    + intros Hk. exists (c :: s). auto.
Qed.

(** A successful match went through its continuation with a rest of the
    input and a capture, both made of characters of the input. *)
Lemma Forall_exec {R : Type} (r : regex) :
  forall (s : jsstring) (cap : option jsstring)
         (k : jsstring -> option jsstring -> option R) (res : R),
    Forall P s -> capOk P cap ->
    exec r s cap k = Some res ->
    exists s' cap', Forall P s' /\ capOk P cap' /\ k s' cap' = Some res.
Proof.
  revert R.
  induction r as [text | class | class | c | r IH | r1 IH1 r2 IH2];
    intros R s cap k res Hs Hcap; cbn [exec].
  - destruct (startsWith s text); [|discriminate]. intros Hk.
    exists (skipn (List.length text) s), cap.
    split; [apply Forall_skipn, Hs | auto].
  - intros Hm. destruct (Forall_many _ _ _ _ Hs Hm) as (s' & Hs' & Hk).
    exists s', cap. auto.
  - destruct s as [|c s]; [discriminate|].
    destruct (class c); [|discriminate]. intros Hm.
    destruct (Forall_many _ _ _ _ (Forall_inv_tail Hs) Hm) as (s' & Hs' & Hk).
    exists s', cap. auto.
  - destruct s as [|c' s]; [intros Hk; exists [], cap; auto|].
    destruct (c' =? c)%N.
    + destruct (k s cap) as [r|] eqn:Hk1.
      * intros [= <-]. exists s, cap. split; [exact (Forall_inv_tail Hs) | auto].
      * intros Hk. exists (c' :: s), cap. auto.
    + intros Hk. exists (c' :: s), cap. auto.
  - intros He. destruct (IH _ _ _ _ _ Hs Hcap He) as (s' & cap' & Hs' & _ & Hk).
    exists s', (Some (firstn (List.length s - List.length s') s)).
    split; [exact Hs' | split; [apply Forall_firstn, Hs | exact Hk]].
  - intros He. destruct (IH1 _ _ _ _ _ Hs Hcap He) as (s1 & cap1 & Hs1 & Hc1 & H1).
    exact (IH2 _ _ _ _ _ Hs1 Hc1 H1).
Qed.

Lemma Forall_matchHere (r : regex) (s c : jsstring) :
  Forall P s -> matchHere r s = Some c -> Forall P c.
Proof.
  unfold matchHere. intros Hs He.
  destruct (Forall_exec r s None _ c Hs I He) as (s' & cap' & _ & Hc & Hk).
  injection Hk as <-. destruct cap'; [exact Hc | constructor].
Qed.

Lemma Forall_search (r : regex) (s c : jsstring) :
  Forall P s -> search r s = Some c -> Forall P c.
Proof.
  induction s as [|d s IH]; intros Hs; cbn [search].
  - destruct (matchHere r []) eqn:Hm; [|discriminate].
    intros [= <-]. exact (Forall_matchHere _ _ _ Hs Hm).
  - destruct (matchHere r (d :: s)) eqn:Hm.
    + intros [= <-]. exact (Forall_matchHere _ _ _ Hs Hm).
    + apply IH. exact (Forall_inv_tail Hs).
Qed.

End Characters.

End StringFacts.

(** ** The snapshot trimmer: the element filter *)

Section FilterFacts.
Import JS ResponseTrimmer TrimmerStatements.

Lemma isInteractive_visible (element : YAMLElement) :
  isInteractive element = true -> visible element = true.
Proof.
  unfold isInteractive. destruct (visible element); [reflexivity | discriminate].
Qed.

Lemma parseYAMLLine_visible (line : jsstring) (element : YAMLElement) :
  parseYAMLLine line = Some element ->
  visible element = true ->
  search hiddenRegex line = None.
Proof.
  unfold parseYAMLLine. destruct (matchHere roleRegex line); [|discriminate].
  intros [= <-]. cbn. destruct (search hiddenRegex line); [discriminate | reflexivity].
Qed.

Lemma formatElement_ref (element : YAMLElement) (formatted : jsstring) :
  formatElement element = Some formatted ->
  ref element <> [] /\
  exists rest, formatted = lit "[" ++ ref element ++ lit "]" ++ rest.
Proof.
  unfold formatElement.
  destruct (ref element) as [|c r] eqn:Href; cbn [nonEmpty negb]; [discriminate|].
  intros [= <-]. split; [discriminate|].
  destruct (nonEmpty (role element)), (nonEmpty (name element)),
    (nonEmpty (url element)); cbn [app join];
    rewrite <- ?app_assoc; eexists; reflexivity.
Qed.

Lemma emit_output (st : Filter) (trimmedLine : jsstring) :
  emit st trimmedLine = st \/
  exists element formatted,
    parseYAMLLine trimmedLine = Some element /\
    isInteractive element = true /\
    formatElement element = Some formatted /\
    emit st trimmedLine =
      mkFilter (inSkipSection st) (skipDepth st) (output st ++ [formatted]).
Proof.
  unfold emit.
  destruct (parseYAMLLine trimmedLine) as [element|]; [|left; reflexivity].
  destruct (isInteractive element) eqn:Hint; cbn [negb]; [|left; reflexivity].
  destruct (formatElement element) as [formatted|] eqn:Hfmt; [|left; reflexivity].
  destruct (nonEmpty formatted); [|left; reflexivity].
  right. exists element, formatted. repeat split; assumption.
Qed.

Lemma filterStep_output (st : Filter) (line : jsstring) :
  output (filterStep st line) = output st \/
  exists element formatted,
    parseYAMLLine (trim line) = Some element /\
    isInteractive element = true /\
    formatElement element = Some formatted /\
    output (filterStep st line) = output st ++ [formatted].
Proof.
  unfold filterStep.
  destruct (negb (nonEmpty (trim line))); [left; reflexivity|].
  destruct (_ || _); [left; reflexivity|].
  destruct (existsb _ _); [left; reflexivity|].
  destruct (inSkipSection st).
  - destruct (_ <=? _)%nat; [|left; reflexivity].
    destruct (emit_output (mkFilter false (skipDepth st) (output st)) (trim line))
      as [-> | (e & f & Hp & Hi & Hf & ->)]; [left; reflexivity|].
    right. exists e, f. repeat split; assumption.
  - destruct (emit_output st (trim line))
      as [-> | (e & f & Hp & Hi & Hf & ->)]; [left; reflexivity|].
    right. exists e, f. repeat split; assumption.
Qed.

(** The second loop only appends to [output], and what it appends are
    printed elements of the lines it went through. *)
Lemma fold_filterStep_output (lines : list jsstring) (st : Filter) :
  exists emitted,
    output (fold_left filterStep lines st) = output st ++ emitted /\
    Forall (emittedFrom lines) emitted.
Proof.
  revert st. induction lines as [|line lines IH]; intros st.
  - exists []. cbn. rewrite app_nil_r. split; [reflexivity | constructor].
  - cbn [fold_left].
    destruct (IH (filterStep st line)) as (emitted & Hout & Hall).
    assert (Hweak : Forall (emittedFrom (line :: lines)) emitted).
    { eapply Forall_impl; [|exact Hall].
      intros f (l & e & Hin & H). exists l, e. split; [right; exact Hin | exact H]. }
    destruct (filterStep_output st line)
      as [Hsame | (e & f & Hp & Hi & Hf & Hpush)].
    + exists emitted. rewrite Hout, Hsame. split; [reflexivity | exact Hweak].
    + exists (f :: emitted). rewrite Hout, Hpush, <- app_assoc.
      split; [reflexivity|]. constructor; [|exact Hweak].
      exists line, e. split; [left; reflexivity|]. repeat split; assumption.
Qed.

Lemma fold_filterStep_nothing (lines : list jsstring) (st : Filter) :
  (forall line, In line lines -> parseYAMLLine (trim line) = None) ->
  output (fold_left filterStep lines st) = output st.
Proof.
  intros Hnone.
  destruct (fold_filterStep_output lines st) as ([|f emitted] & Hout & Hall).
  - rewrite Hout. apply app_nil_r.
  - apply Forall_inv in Hall. destruct Hall as (l & e & Hin & Hp & _).
    rewrite (Hnone l Hin) in Hp. discriminate.
Qed.

(** The lines before the elements do not start with a bracket. *)
Lemma initialOutput_no_bracket (url title : jsstring) :
  filter (fun l => startsWith l (lit "[")) (initialOutput url title) = [].
Proof.
  unfold initialOutput.
  destruct (nonEmpty url), (nonEmpty title); reflexivity.
Qed.

Lemma emitted_bracket (lines : list jsstring) (emitted : list jsstring) :
  Forall (emittedFrom lines) emitted ->
  filter (fun l => startsWith l (lit "[")) emitted = emitted.
Proof.
  induction 1 as [|f emitted (l & e & _ & _ & _ & Hf) _ IH]; [reflexivity|].
  cbn [filter]. destruct (formatElement_ref e f Hf) as (_ & rest & ->).
  change (startsWith (lit "[" ++ ref e ++ lit "]" ++ rest) (lit "[")) with true.
  cbv iota. rewrite IH. reflexivity.
Qed.

(** The shape of the [output] array: the header lines, the printed
    elements, an empty line and the count of the printed elements. *)
Lemma outputLines_shape (yamlText : jsstring) :
  let lines := split yamlText [newline] in
  exists emitted,
    outputLines yamlText =
      initialOutput (fst (extractHeader lines)) (snd (extractHeader lines))
      ++ emitted
      ++ [[]; lit "Total interactive elements: "
                ++ numberToString (List.length emitted)] /\
    Forall (emittedFrom lines) emitted.
Proof.
  intros lines. unfold outputLines, filteredOutput. fold lines.
  destruct (extractHeader lines) as [url title]. cbn [fst snd].
  destruct (fold_filterStep_output lines (mkFilter false 0 (initialOutput url title)))
    as (emitted & -> & Hall).
  exists emitted. split; [|exact Hall].
  cbn [output]. unfold summary.
  rewrite !filter_app, initialOutput_no_bracket,
    (emitted_bracket lines emitted Hall).
  cbn [filter startsWith lit app]. rewrite app_nil_r.
  rewrite <- !app_assoc. reflexivity.
Qed.

Example outputLines_example :
  outputLines (lit "- button " ++ quoted (lit "OK") ++ lit " [ref=e1]" ++ [newline]
               ++ lit "- button " ++ quoted (lit "No") ++ lit " [ref=e2] (hidden)"
               ++ [newline] ++ lit "- heading " ++ quoted (lit "News"))
  = [[]; banner; []; lit "[e1] button " ++ quoted (lit "OK"); [];
     lit "Total interactive elements: 1"].
Proof. vm_compute. reflexivity. Qed.

End FilterFacts.

(** ** The snapshot trimmer run on its own output *)

Section RerunFacts.
Import JS ResponseTrimmer TrimmerStatements.

Lemma cut_newline_None (s : jsstring) :
  cut [newline] s = None <-> noNewline s.
Proof.
  induction s as [|c s IH]; cbn [cut startsWith].
  - split; [constructor | reflexivity].
  - rewrite andb_true_r. destruct (N.eqb_spec c newline) as [-> | Hc].
    + split; [discriminate | intros H; apply Forall_inv in H; contradiction].
    + destruct (cut [newline] s) as [[b a]|].
      * split; [discriminate|]. intros H. apply Forall_inv_tail, IH in H.
        discriminate.
      * split; [|reflexivity]. intros _. constructor; [exact Hc | apply IH; reflexivity].
Qed.

Lemma cut_newline_app (l rest : jsstring) :
  noNewline l -> cut [newline] (l ++ newline :: rest) = Some (l, rest).
Proof.
  induction 1 as [|c l Hc _ IH]; cbn [app cut startsWith].
  - rewrite N.eqb_refl. reflexivity.
  - destruct (N.eqb_spec c newline); [contradiction|]. cbn [andb].
    rewrite IH. reflexivity.
Qed.

Lemma newline_not_empty : [newline] <> [].
Proof. discriminate. Qed.

(** Splitting on the line break gives lines without line breaks ... *)
Lemma split_noNewline (s : jsstring) : Forall noNewline (split s [newline]).
Proof.
  remember (List.length s) as n eqn:Hn. revert s Hn.
  induction n as [n IH] using lt_wf_ind. intros s Hn.
  rewrite (split_cut _ _ newline_not_empty).
  destruct (cut [newline] s) as [[b a]|] eqn:Hcut.
  - constructor.
    + apply cut_newline_None, cut_None.
      exact (cut_before _ _ _ _ newline_not_empty Hcut).
    + apply (IH (List.length a)); [|reflexivity].
      subst n. exact (cut_shorter _ _ _ _ newline_not_empty Hcut).
  - constructor; [apply cut_newline_None, Hcut | constructor].
Qed.

(** ... and undoes [join] on such lines. *)
Lemma split_join_lines (ls : list jsstring) :
  ls <> [] -> Forall noNewline ls ->
  split (join [newline] ls) [newline] = ls.
Proof.
  induction ls as [|l ls IH]; [contradiction|]. intros _ Hall.
  pose proof (Forall_inv Hall) as Hl. apply Forall_inv_tail in Hall.
  rewrite (split_cut _ _ newline_not_empty).
  destruct ls as [|l2 ls].
  - cbn [join]. apply cut_newline_None in Hl. rewrite Hl. reflexivity.
  - change (join [newline] (l :: l2 :: ls))
      with (l ++ newline :: join [newline] (l2 :: ls)).
    rewrite (cut_newline_app _ _ Hl), IH; [reflexivity | discriminate | exact Hall].
Qed.

Lemma numberToString_noNewline (n : nat) : noNewline (numberToString n).
Proof.
  unfold numberToString. generalize (Nat.to_uint n). intros d.
  induction d; cbn; constructor; (discriminate || assumption).
Qed.

(** *** The lines of an output have no line break *)

Section HeaderCharacters.
Variable P : N -> Prop.

Lemma Forall_afterKey (line key : jsstring) :
  Forall P line -> Forall P (afterKey line key).
Proof.
  intros H. unfold afterKey.
  destruct (nth_error (split line key) 1) as [part|] eqn:Hnth; [|constructor].
  apply Forall_trim. apply nth_error_In in Hnth.
  pose proof (Forall_split P line key H) as Hall.
  rewrite Forall_forall in Hall. exact (Hall part Hnth).
Qed.

Lemma Forall_headerStep (acc : jsstring * jsstring) (line : jsstring) :
  Forall P line -> Forall P (fst acc) /\ Forall P (snd acc) ->
  Forall P (fst (headerStep acc line)) /\ Forall P (snd (headerStep acc line)).
Proof.
  intros Hl [Hu Ht]. destruct acc as [u t]. unfold headerStep.
  destruct (_ && _); [split; [apply Forall_afterKey, Hl | exact Ht]|].
  destruct (_ && _); [split; [exact Hu | apply Forall_afterKey, Hl]|].
  split; assumption.
Qed.

Lemma Forall_fold_headerStep (lines : list jsstring) (acc : jsstring * jsstring) :
  Forall (Forall P) lines -> Forall P (fst acc) /\ Forall P (snd acc) ->
  Forall P (fst (fold_left headerStep lines acc)) /\
  Forall P (snd (fold_left headerStep lines acc)).
Proof.
  revert acc. induction lines as [|l lines IH]; intros acc Hall Hacc; cbn.
  - exact Hacc.
  - apply IH; [exact (Forall_inv_tail Hall)|].
    apply Forall_headerStep; [exact (Forall_inv Hall) | exact Hacc].
Qed.

Lemma Forall_extractHeader (lines : list jsstring) :
  Forall (Forall P) lines ->
  Forall P (fst (extractHeader lines)) /\ Forall P (snd (extractHeader lines)).
Proof.
  intros Hall. unfold extractHeader. apply Forall_fold_headerStep.
  - rewrite <- (firstn_skipn 10 lines) in Hall.
    apply Forall_app in Hall as [H _]. exact H.
  - split; constructor.
Qed.

Lemma Forall_parseYAMLLine (line : jsstring) (e : YAMLElement) :
  Forall P line -> parseYAMLLine line = Some e ->
  Forall P (role e) /\ Forall P (name e) /\ Forall P (ref e) /\ Forall P (url e).
Proof.
  intros Hl. unfold parseYAMLLine.
  destruct (matchHere roleRegex line) as [r|] eqn:Hr; [|discriminate].
  intros [= <-]. cbn [role name ref url].
  assert (Hcap : forall rx, Forall P (captureOrEmpty (search rx line))).
  { intros rx. destruct (search rx line) eqn:Hs; [|constructor].
    exact (Forall_search P _ _ _ Hl Hs). }
  repeat split; try apply Hcap. exact (Forall_matchHere P _ _ _ Hl Hr).
Qed.

End HeaderCharacters.

Ltac no_newline :=
  repeat first
    [ assumption
    | apply Forall_nil
    | apply Forall_cons; [discriminate|]
    | apply Forall_app; split ].

Lemma formatElement_noNewline (e : YAMLElement) (formatted : jsstring) :
  noNewline (role e) -> noNewline (name e) -> noNewline (ref e) ->
  noNewline (url e) ->
  formatElement e = Some formatted -> noNewline formatted.
Proof.
  unfold noNewline. intros Hrole Hname Href Hurl. unfold formatElement.
  destruct (negb (nonEmpty (ref e))); [discriminate|]. intros [= <-].
  destruct (nonEmpty (role e)), (nonEmpty (name e)), (nonEmpty (url e));
    cbn [app join lit quoted list_ascii_of_string map]; no_newline.
Qed.

Lemma initialOutput_noNewline (url title : jsstring) :
  noNewline url -> noNewline title -> Forall noNewline (initialOutput url title).
Proof.
  unfold noNewline. intros Hu Ht. unfold initialOutput.
  destruct (nonEmpty url), (nonEmpty title); cbn [app];
    repeat (apply Forall_cons; [cbn; no_newline |]); constructor.
Qed.

Lemma emittedFrom_noNewline (lines : list jsstring) (f : jsstring) :
  Forall noNewline lines -> emittedFrom lines f -> noNewline f.
Proof.
  intros Hall (l & e & Hin & Hp & _ & Hf).
  rewrite Forall_forall in Hall.
  pose proof (Forall_trim _ _ (Hall l Hin)) as Htrim.
  destruct (Forall_parseYAMLLine _ _ _ Htrim Hp) as (H1 & H2 & H3 & H4).
  exact (formatElement_noNewline e f H1 H2 H3 H4 Hf).
Qed.

Lemma outputLines_noNewline (yamlText : jsstring) :
  Forall noNewline (outputLines yamlText).
Proof.
  destruct (outputLines_shape yamlText) as (emitted & -> & Hall).
  pose proof (split_noNewline yamlText) as Hlines.
  destruct (Forall_extractHeader _ _ Hlines) as [Hu Ht].
  apply Forall_app. split; [apply initialOutput_noNewline; assumption|].
  apply Forall_app. split.
  - eapply Forall_impl; [|exact Hall].
    intros f. apply emittedFrom_noNewline, Hlines.
  - apply Forall_cons; [constructor|]. apply Forall_cons; [|constructor].
    apply Forall_app. split; [|apply numberToString_noNewline].
    vm_compute. no_newline.
Qed.

Lemma outputLines_not_nil (yamlText : jsstring) : outputLines yamlText <> [].
Proof.
  unfold outputLines. destruct (filteredOutput yamlText); discriminate.
Qed.

(** The lines of the text [trimYAMLSnapshot] returns are the [output]
    array. *)
Lemma split_trimYAMLSnapshot (yamlText : jsstring) :
  split (trimYAMLSnapshot yamlText) [newline] = outputLines yamlText.
Proof.
  apply split_join_lines; [apply outputLines_not_nil | apply outputLines_noNewline].
Qed.

(** *** The element lines *)

(** C8. The lines of the text [trimYAMLSnapshot] returns are the header
    lines, the element lines, an empty line and the count.  The lines that
    start with a bracket are element lines, and every element line is the
    print of an element parsed from a line of the input that has a
    non-empty reference id and is not marked hidden. *)
Theorem emitted_lines_have_ref_and_are_visible (yamlText : jsstring) :
  let lines := split yamlText [newline] in
  let header := extractHeader lines in
  let outLines := split (trimYAMLSnapshot yamlText) [newline] in
  exists emitted : list jsstring,
    outLines =
      initialOutput (fst header) (snd header) ++ emitted
      ++ [[]; lit "Total interactive elements: "
                ++ numberToString (List.length emitted)] /\
    (forall l : jsstring,
       In l outLines -> startsWith l (lit "[") = true -> In l emitted) /\
    (forall l : jsstring,
       In l emitted ->
       exists (line : jsstring) (element : YAMLElement),
         In line lines /\
         parseYAMLLine (trim line) = Some element /\
         formatElement element = Some l /\
         ref element <> [] /\
         visible element = true /\
         search hiddenRegex (trim line) = None).
Proof.
  intros lines header outLines. subst outLines.
  rewrite split_trimYAMLSnapshot.
  destruct (outputLines_shape yamlText) as (emitted & Hshape & Hall).
  fold lines in Hshape, Hall. fold header in Hshape.
  exists emitted. split; [exact Hshape | split].
  - intros l Hin Hbr. rewrite Hshape in Hin.
    apply in_app_or in Hin as [Hin | Hin].
    + pose proof (initialOutput_no_bracket (fst header) (snd header)) as Hno.
      assert (Hf : In l (filter (fun l => startsWith l (lit "["))
                           (initialOutput (fst header) (snd header))))
        by (apply filter_In; split; assumption).
      rewrite Hno in Hf. destruct Hf.
    + apply in_app_or in Hin as [Hin | Hin]; [exact Hin|].
      destruct Hin as [<- | [<- | []]]; discriminate.
  - intros l Hin. rewrite Forall_forall in Hall.
    destruct (Hall l Hin) as (line & e & Hl & Hp & Hi & Hf).
    exists line, e.
    pose proof (isInteractive_visible e Hi) as Hv.
    repeat split; try assumption.
    + exact (proj1 (formatElement_ref e l Hf)).
    + exact (parseYAMLLine_visible _ _ Hp Hv).
Qed.

(** *** No line of an output is an element line of the input format *)

Lemma parseYAMLLine_dash (line : jsstring) (e : YAMLElement) :
  parseYAMLLine line = Some e -> exists rest, line = lit "-" ++ rest.
Proof.
  unfold parseYAMLLine, matchHere, roleRegex. cbn [exec].
  destruct (startsWith line (lit "-")) eqn:Hs; [|discriminate].
  intros _. apply startsWith_app, Hs.
Qed.

(** A line that is empty, or whose first character is visible and is not a
    dash, does not parse. *)
Lemma parseYAMLLine_other (line : jsstring) :
  match line with
  | [] => True
  | c :: _ => isWhiteSpace c = false /\ c <> 45%N
  end ->
  parseYAMLLine (trim line) = None.
Proof.
  destruct line as [|c line]; [reflexivity|]. intros [Hws Hc].
  destruct (trim_cons c line Hws) as (rest & ->).
  destruct (parseYAMLLine (c :: rest)) as [e|] eqn:Hp; [|reflexivity].
  apply parseYAMLLine_dash in Hp as (r & [= -> _]). contradiction.
Qed.

Lemma initialOutput_unparseable (url title l : jsstring) :
  In l (initialOutput url title) -> parseYAMLLine (trim l) = None.
Proof.
  unfold initialOutput.
  destruct (nonEmpty url), (nonEmpty title); cbn [app In];
    intros H; repeat destruct H as [<- | H]; try destruct H;
    try reflexivity; apply parseYAMLLine_other; cbn; split;
    (reflexivity || discriminate).
Qed.

Lemma outputLines_unparseable (yamlText l : jsstring) :
  In l (outputLines yamlText) -> parseYAMLLine (trim l) = None.
Proof.
  destruct (outputLines_shape yamlText) as (emitted & -> & Hall).
  intros H. apply in_app_or in H as [H | H];
    [exact (initialOutput_unparseable _ _ _ H)|].
  apply in_app_or in H as [H | H].
  - rewrite Forall_forall in Hall.
    destruct (Hall l H) as (_ & e & _ & _ & _ & Hf).
    destruct (formatElement_ref e l Hf) as (_ & rest & ->).
    apply parseYAMLLine_other. cbn. split; [reflexivity | discriminate].
  - destruct H as [<- | [<- | []]]; [reflexivity|].
    apply parseYAMLLine_other. cbn. split; [reflexivity | discriminate].
Qed.

(** When no line of the input parses, the output is the header, the banner
    and a count of 0. *)
Lemma outputLines_unparseable_input (yamlText : jsstring) :
  (forall line, In line (split yamlText [newline]) ->
                parseYAMLLine (trim line) = None) ->
  outputLines yamlText =
  bareOutput (fst (extractHeader (split yamlText [newline])))
             (snd (extractHeader (split yamlText [newline]))).
Proof.
  intros Hnone. unfold outputLines, filteredOutput, bareOutput.
  destruct (extractHeader (split yamlText [newline])) as [u t]. cbn [fst snd].
  rewrite (fold_filterStep_nothing _ _ Hnone). cbn [output].
  unfold summary. rewrite filter_app, initialOutput_no_bracket.
  rewrite <- app_assoc. reflexivity.
Qed.

(** A second run sees the lines of the first output, none of which parses:
    it emits no element. *)
Lemma rerun_outputLines (yamlText : jsstring) :
  outputLines (trimYAMLSnapshot yamlText) =
  bareOutput (fst (extractHeader (outputLines yamlText)))
             (snd (extractHeader (outputLines yamlText))).
Proof.
  rewrite outputLines_unparseable_input; rewrite split_trimYAMLSnapshot.
  - reflexivity.
  - intros line. apply outputLines_unparseable.
Qed.

(** *** The header is read back as it was printed *)

Lemma afterKey_cases (line key : jsstring) :
  key <> [] ->
  afterKey line key = [] \/
  exists part pre post,
    afterKey line key = trim part /\
    includes part key = false /\
    line = pre ++ part ++ post.
Proof.
  intros Hkey. unfold afterKey. rewrite (split_cut _ _ Hkey).
  destruct (cut key line) as [[b a]|] eqn:Hcut; [|left; reflexivity].
  cbn [nth_error]. rewrite (split_cut _ _ Hkey).
  apply cut_Some in Hcut. right.
  destruct (cut key a) as [[b' a']|] eqn:Hcut'; cbn [nth_error].
  - exists b', (b ++ key), (key ++ a'). split; [reflexivity|].
    split; [exact (cut_before _ _ _ _ Hkey Hcut')|].
    apply cut_Some in Hcut'. subst. rewrite <- !app_assoc. reflexivity.
  - exists a, (b ++ key), []. split; [reflexivity|].
    split; [apply cut_None, Hcut'|].
    subst. rewrite app_nil_r, <- app_assoc. reflexivity.
Qed.

Lemma includes_nil (key : jsstring) : key <> [] -> includes [] key = false.
Proof. destruct key; [contradiction | reflexivity]. Qed.

Lemma afterKey_trimmed (line key : jsstring) :
  trim (afterKey line key) = afterKey line key.
Proof.
  unfold afterKey. destruct (nth_error _ 1); [apply trim_idem | reflexivity].
Qed.

(** The text after a key holds no occurrence of the key, and none of any
    text that does not occur in the line. *)
Lemma afterKey_excludes (line key other : jsstring) :
  key <> [] -> other <> [] ->
  (other = key \/ includes line other = false) ->
  includes (afterKey line key) other = false.
Proof.
  intros Hkey Hother Hcase.
  destruct (afterKey_cases line key Hkey)
    as [-> | (part & pre & post & -> & Hpart & Hline)];
    [apply includes_nil, Hother|].
  destruct (trim_infix part) as (p1 & p2 & Htrim).
  destruct Hcase as [-> | Hno].
  - rewrite Htrim in Hpart. exact (includes_infix _ _ _ _ Hpart).
  - rewrite Hline, Htrim in Hno. apply includes_infix in Hno.
    exact (includes_infix _ _ _ _ Hno).
Qed.

Lemma urlKey_not_empty : urlKey <> [].
Proof. discriminate. Qed.

Lemma titleKey_not_empty : titleKey <> [].
Proof. discriminate. Qed.

Lemma headerStep_clean (acc : jsstring * jsstring) (line : jsstring) :
  cleanHeader (fst acc) (snd acc) ->
  cleanHeader (fst (headerStep acc line)) (snd (headerStep acc line)).
Proof.
  destruct acc as [u t]. intros [H1 H2 H3 H4 H5]. unfold headerStep.
  fold urlKey titleKey.
  destruct (nonEmpty line && includes line urlKey) eqn:Hurl; cbn [fst snd].
  - constructor; try assumption.
    + apply afterKey_trimmed.
    + apply afterKey_excludes; auto using urlKey_not_empty.
  - destruct (nonEmpty line && includes line titleKey) eqn:Htitle; cbn [fst snd].
    + apply andb_true_iff in Htitle as [Hne _]. rewrite Hne in Hurl.
      cbn [andb] in Hurl.
      constructor; try assumption.
      * apply afterKey_trimmed.
      * apply afterKey_excludes;
          auto using urlKey_not_empty, titleKey_not_empty.
      * apply afterKey_excludes; auto using titleKey_not_empty.
    + constructor; assumption.
Qed.

Lemma extractHeader_clean (lines : list jsstring) :
  cleanHeader (fst (extractHeader lines)) (snd (extractHeader lines)).
Proof.
  unfold extractHeader. generalize (firstn 10 lines). intros ls.
  assert (H0 : cleanHeader (fst (@nil N, @nil N)) (snd (@nil N, @nil N)))
    by (constructor; reflexivity).
  revert H0. generalize (@nil N, @nil N). induction ls as [|l ls IH];
    intros acc Hacc; cbn [fold_left]; [exact Hacc|].
  apply IH, headerStep_clean, Hacc.
Qed.

(** Reading back a printed header line. *)
Lemma afterKey_printed (key value : jsstring) :
  key <> [] ->
  trim value = value ->
  includes (space :: value) key = false ->
  afterKey (key ++ space :: value) key = value.
Proof.
  intros Hkey Htrim Hno. unfold afterKey. rewrite (split_cut _ _ Hkey).
  assert (Hcut : cut key (key ++ space :: value) = Some ([], space :: value)).
  { destruct (key ++ space :: value) eqn:Heq;
      [destruct key; discriminate|]. rewrite <- Heq. clear Heq.
    assert (Hs : startsWith (key ++ space :: value) key = true)
      by (apply startsWith_app; eexists; reflexivity).
    destruct (key ++ space :: value) eqn:Heq; cbn [cut]; rewrite Hs;
      rewrite <- Heq, skipn_prefix; reflexivity. }
  rewrite Hcut. cbn [nth_error]. rewrite (split_cut _ _ Hkey).
  apply cut_None in Hno. rewrite Hno. cbn [nth_error].
  rewrite trim_space. exact Htrim.
Qed.

Lemma headerStep_url_line (url title0 url0 : jsstring) :
  trim url = url -> includes url urlKey = false ->
  headerStep (url0, title0) (lit "URL: " ++ url) = (url, title0).
Proof.
  intros Htrim Hno. unfold headerStep.
  change (nonEmpty (lit "URL: " ++ url) && includes (lit "URL: " ++ url) (lit "URL:"))
    with true. cbv iota.
  change (lit "URL: " ++ url) with (urlKey ++ space :: url).
  fold urlKey.
  rewrite afterKey_printed; [reflexivity | discriminate | exact Htrim |].
  cbn [includes]. rewrite Hno. reflexivity.
Qed.

Lemma headerStep_title_line (title title0 url0 : jsstring) :
  trim title = title -> includes title urlKey = false ->
  includes title titleKey = false ->
  headerStep (url0, title0) (lit "Title: " ++ title) = (url0, title).
Proof.
  intros Htrim Hnou Hnot. unfold headerStep. fold urlKey titleKey.
  assert (Hu : includes (lit "Title: " ++ title) urlKey = false).
  { cbn [lit list_ascii_of_string map app includes].
    rewrite Hnou. reflexivity. }
  rewrite Hu, andb_false_r.
  change (nonEmpty (lit "Title: " ++ title)
          && includes (lit "Title: " ++ title) titleKey) with true. cbv iota.
  change (lit "Title: " ++ title) with (titleKey ++ space :: title).
  rewrite afterKey_printed; [reflexivity | discriminate | exact Htrim |].
  cbn [includes]. rewrite Hnot. reflexivity.
Qed.

(** The first loop on an output without element lines finds the header it
    was printed with. *)
Lemma extractHeader_bareOutput (url title : jsstring) :
  cleanHeader url title ->
  extractHeader (bareOutput url title) = (url, title).
Proof.
  intros [H1 H2 H3 H4 H5]. unfold extractHeader, bareOutput, initialOutput.
  destruct url as [|cu url], title as [|ct title]; cbn [nonEmpty app firstn fold_left].
  - reflexivity.
  - rewrite (headerStep_title_line (ct :: title)) by assumption. reflexivity.
  - rewrite (headerStep_url_line (cu :: url)) by assumption. reflexivity.
  - rewrite (headerStep_url_line (cu :: url)) by assumption.
    rewrite (headerStep_title_line (ct :: title)) by assumption. reflexivity.
Qed.

(** *** Idempotence *)

(** C7 as stated fails: the output for a single button lists it, and
    running the trimmer on that output loses the line and counts 0. *)
Lemma rerun_changes_output :
  let once := trimYAMLSnapshot okButton in
  let twice := trimYAMLSnapshot once in
  once = join [newline]
           [[]; banner; []; lit "[e1] button " ++ quoted (lit "OK"); [];
            lit "Total interactive elements: 1"] /\
  twice = join [newline]
            [[]; banner; []; []; lit "Total interactive elements: 0"] /\
  twice <> once.
Proof.
  cbv zeta. split; [vm_compute; reflexivity|].
  split; [vm_compute; reflexivity|].
  intros H. vm_compute in H. discriminate H.
Qed.

(** C7, amended. A second run prints the header it reads back from the
    first output, the banner and no element line (the printed lines are not
    in the input format), and counts 0; so it gives the first output back
    exactly when that output lists no element.  From the second run on
    nothing changes: a third run gives the second output back. *)
Theorem rerun_keeps_no_element (yamlText : jsstring) :
  let once := trimYAMLSnapshot yamlText in
  let twice := trimYAMLSnapshot once in
  let header := extractHeader (split once [newline]) in
  twice = join [newline] (initialOutput (fst header) (snd header)
                          ++ [[]; lit "Total interactive elements: 0"]) /\
  (twice = once <->
   filter (fun l => startsWith l (lit "[")) (split once [newline]) = []) /\
  trimYAMLSnapshot twice = twice.
Proof.
  cbv zeta. rewrite split_trimYAMLSnapshot.
  pose proof (rerun_outputLines yamlText) as Hrerun.
  set (u := fst (extractHeader (outputLines yamlText))) in *.
  set (t := snd (extractHeader (outputLines yamlText))) in *.
  assert (Hclean : cleanHeader u t) by apply extractHeader_clean.
  pose proof (fun x => eq_refl : trimYAMLSnapshot x = join [newline] (outputLines x))
    as Hjoin.
  split; [|split].
  - rewrite (Hjoin (trimYAMLSnapshot yamlText)), Hrerun. reflexivity.
  - split.
    + intros Heq. apply (f_equal (fun x => split x [newline])) in Heq.
      rewrite !split_trimYAMLSnapshot, Hrerun in Heq. rewrite <- Heq.
      unfold bareOutput. rewrite filter_app, initialOutput_no_bracket.
      reflexivity.
    + intros Hnone.
      destruct (outputLines_shape yamlText) as (emitted & Hshape & Hall).
      rewrite Hshape, !filter_app, initialOutput_no_bracket in Hnone.
      cbn [app] in Hnone. apply app_eq_nil in Hnone as [Hnone _].
      assert (Hempty : emitted = [])
        by (rewrite <- (emitted_bracket _ _ Hall); exact Hnone).
      subst emitted.
      change (outputLines yamlText =
              bareOutput (fst (extractHeader (split yamlText [newline])))
                         (snd (extractHeader (split yamlText [newline]))))
        in Hshape.
      pose proof (extractHeader_clean (split yamlText [newline])) as Hc0.
      assert (Hu : (u, t) = extractHeader (split yamlText [newline])).
      { subst u t. rewrite Hshape, (extractHeader_bareOutput _ _ Hc0).
        cbn [fst snd]. symmetry. apply surjective_pairing. }
      rewrite (Hjoin (trimYAMLSnapshot yamlText)), Hrerun.
      rewrite (Hjoin yamlText), Hshape.
      apply (f_equal fst) in Hu as Hu1. apply (f_equal snd) in Hu as Hu2.
      cbn [fst snd] in Hu1, Hu2. rewrite <- Hu1, <- Hu2. reflexivity.
  - rewrite (Hjoin (trimYAMLSnapshot (trimYAMLSnapshot yamlText))).
    rewrite rerun_outputLines.
    rewrite Hrerun, (extractHeader_bareOutput _ _ Hclean). cbn [fst snd].
    rewrite (Hjoin (trimYAMLSnapshot yamlText)), Hrerun. reflexivity.
Qed.

End RerunFacts.

(** ** The snapshot trimmer: the entry point *)

Section EntryPointFacts.
Import JS ResponseTrimmer TrimmerStatements.

(** One round of the loop returns exactly on the readable items, and then
    pushes [keepOrTrim item]. *)
Lemma trimItem_contentItem (item : JSValue) :
  contentItem item = true -> trimItem item = Normal (keepOrTrim item).
Proof.
  unfold trimItem, keepOrTrim, textOf, contentItem, getProp.
  destruct item as [ | | b | x | s | items | props];
    try discriminate; try reflexivity.
  generalize (lookup (lit "type") props) (lookup (lit "text") props).
  intros [ty|] text; cbn [bind]; [|destruct text; reflexivity].
  destruct (isTextTag ty) eqn:Hty; cbn [andb];
    [|destruct text as [[]|]; reflexivity].
  destruct text as [[ | | b | x | s | items | ps]|]; cbn;
    try discriminate; try reflexivity.
  - destruct b; [discriminate | reflexivity].
  - destruct (negb (_ || _)); [discriminate | reflexivity].
  - destruct s; reflexivity.
Qed.

Lemma trimItem_throws (item : JSValue) :
  contentItem item = false -> trimItem item = Throw TypeError.
Proof.
  unfold trimItem, contentItem, getProp.
  destruct item as [ | | b | x | s | items | props];
    try discriminate; try reflexivity.
  generalize (lookup (lit "type") props) (lookup (lit "text") props).
  intros [ty|] text; cbn [bind]; [|discriminate].
  destruct (isTextTag ty) eqn:Hty; [|discriminate].
  destruct text as [[ | | b | x | s | items | ps]|]; cbn;
    try discriminate; try reflexivity.
  - destruct b; [reflexivity | discriminate].
  - destruct (negb (_ || _)); [reflexivity | discriminate].
Qed.

Lemma trimItems_map (items acc : list JSValue) :
  forallb contentItem items = true ->
  trimItems items acc = Normal (acc ++ map keepOrTrim items).
Proof.
  revert acc. induction items as [|item items IH]; intros acc H; cbn.
  - rewrite app_nil_r. reflexivity.
  - cbn in H. apply andb_true_iff in H as [Hi Hr].
    rewrite (trimItem_contentItem item Hi). cbn.
    rewrite (IH _ Hr), <- app_assoc. reflexivity.
Qed.

Lemma trimItems_throws (items acc : list JSValue) :
  forallb contentItem items = false ->
  trimItems items acc = Throw TypeError.
Proof.
  revert acc. induction items as [|item items IH]; intros acc H; cbn in *.
  - discriminate.
  - destruct (contentItem item) eqn:Hi.
    + rewrite (trimItem_contentItem item Hi). cbn. apply IH. exact H.
    + rewrite (trimItem_throws item Hi). reflexivity.
Qed.

(** On an array the entry point returns if every item is readable, and
    throws a [TypeError] otherwise. *)
Lemma trimSnapshot_array (items : list JSValue) :
  trimSnapshot (JSArray items) =
  if forallb contentItem items then Normal (JSArray (map keepOrTrim items))
  else Throw TypeError.
Proof.
  unfold trimSnapshot. cbn.
  destruct (forallb contentItem items) eqn:H.
  - rewrite (trimItems_map items [] H). reflexivity.
  - rewrite (trimItems_throws items [] H). reflexivity.
Qed.

(** C10 as stated fails: an array with a [null] item has no output array
    at all, the loop throws when it reads the item's [type]. *)
Lemma trimSnapshot_null_item :
  trimSnapshot (JSArray [textItem (lit "hello"); JSNull]) = Throw TypeError.
Proof. reflexivity. Qed.

(** C10, amended. On an array whose items the loop can read ([contentItem]:
    no [null] or [undefined] item, no item tagged ['text'] whose text is
    truthy and not a string), [trimSnapshot] returns an array of the same
    length and in the same order; an item that is not a text item with
    non-empty text is at its position unchanged, and a text item with
    non-empty text is replaced there by a text item holding the trimmed
    text. *)
Theorem trimSnapshot_frame (items : list JSValue) :
  forallb contentItem items = true ->
  let out := map keepOrTrim items in
  trimSnapshot (JSArray items) = Normal (JSArray out) /\
  List.length out = List.length items /\
  (forall (i : nat) (item : JSValue),
     nth_error items i = Some item ->
     match textOf item with
     | None => nth_error out i = Some item
     | Some s => nth_error out i = Some (textItem (trimYAMLSnapshot s))
     end).
Proof.
  intros Hitems out.
  split; [|split; [apply length_map|]].
  - unfold trimSnapshot. cbn. rewrite (trimItems_map items [] Hitems).
    reflexivity.
  - intros i item Hi. subst out.
    rewrite nth_error_map, Hi. cbn. unfold keepOrTrim.
    destruct (textOf item); reflexivity.
Qed.

Lemma trimSnapshot_frame_witness :
  let items := [imageItem; textItem (lit "hello"); textItem []; JSNumber 1] in
  trimSnapshot (JSArray items)
  = Normal (JSArray [imageItem; textItem (trimYAMLSnapshot (lit "hello"));
                     textItem []; JSNumber 1]).
Proof.
  exact (proj1 (trimSnapshot_frame
                  [imageItem; textItem (lit "hello"); textItem []; JSNumber 1]
                  eq_refl)).
Defined.

(** C9 as stated fails twice over: a text without any parseable line is
    not handed back, it is replaced by a banner and a count of 0; and an
    array with a [null] item makes the entry point throw. *)
Lemma trimSnapshot_not_fail_open :
  trimSnapshot (JSArray [textItem (lit "hello")])
  = Normal (JSArray [textItem (join [newline]
                                 [[]; banner; []; [];
                                  lit "Total interactive elements: 0"])]) /\
  trimSnapshot (JSArray [textItem (lit "hello")])
  <> Normal (JSArray [textItem (lit "hello")]) /\
  trimSnapshot (JSArray [JSNull]) = Throw TypeError.
Proof.
  split; [vm_compute; reflexivity | split; [|reflexivity]].
  intros H. vm_compute in H. discriminate H.
Qed.

(** C9, amended. The entry point hands its input back unchanged when the
    input is falsy or is not an array; an empty array gives an empty array
    and a text item with empty text is kept; on an array whose items the
    loop can read it does not throw.  For a text that is not empty and
    none of whose lines parses, the result holds the header lines found in
    it, the banner and a count of 0, whether or not that is the text it was
    given. *)
Theorem trimSnapshot_pass_through :
  (forall v : JSValue,
     truthy v && isArray v = false -> trimSnapshot v = Normal v) /\
  trimSnapshot (JSArray []) = Normal (JSArray []) /\
  trimSnapshot (JSArray [textItem []]) = Normal (JSArray [textItem []]) /\
  (forall items : list JSValue,
     forallb contentItem items = true ->
     exists out, trimSnapshot (JSArray items) = Normal (JSArray out)) /\
  (forall text : jsstring,
     text <> [] ->
     (forall line, In line (split text [newline]) ->
                   parseYAMLLine (trim line) = None) ->
     let header := extractHeader (split text [newline]) in
     trimSnapshot (JSArray [textItem text])
     = Normal (JSArray
                 [textItem (join [newline]
                              (initialOutput (fst header) (snd header)
                               ++ [[]; lit "Total interactive elements: 0"]))])).
Proof.
  split; [|split; [reflexivity | split; [reflexivity | split]]].
  - intros v Hv. unfold trimSnapshot.
    destruct (truthy v), (isArray v); try discriminate; reflexivity.
  - intros items Hitems. exists (map keepOrTrim items).
    unfold trimSnapshot. cbn. rewrite (trimItems_map items [] Hitems).
    reflexivity.
  - intros text Hne Hnone header.
    unfold trimSnapshot. cbn [truthy isArray negb orb trimItems].
    rewrite trimItem_contentItem by (destruct text; reflexivity).
    cbn [bind app]. unfold keepOrTrim.
    assert (Htext : textOf (textItem text) = Some text)
      by (destruct text; [contradiction | reflexivity]).
    rewrite Htext. unfold trimYAMLSnapshot.
    rewrite (outputLines_unparseable_input text Hnone). reflexivity.
Qed.

Lemma trimSnapshot_pass_through_witness :
  trimSnapshot JSNull = Normal JSNull /\
  trimSnapshot (JSString (lit "hello")) = Normal (JSString (lit "hello")) /\
  (exists out,
     trimSnapshot (JSArray [imageItem; textItem (lit "hello")])
     = Normal (JSArray out)) /\
  trimSnapshot (JSArray [textItem (lit "Title: Home")])
  = Normal (JSArray
              [textItem (join [newline]
                           [lit "Title: Home"; []; banner; []; [];
                            lit "Total interactive elements: 0"])]).
Proof.
  destruct trimSnapshot_pass_through as (Hraw & _ & _ & Hitems & Htext).
  split; [exact (Hraw JSNull eq_refl)|].
  split; [exact (Hraw (JSString (lit "hello")) eq_refl)|].
  split; [exact (Hitems [imageItem; textItem (lit "hello")] eq_refl)|].
  refine (Htext (lit "Title: Home") _ _); [discriminate|].
  intros line [<- | []]. reflexivity.
Defined.

End EntryPointFacts.

(** * Further properties *)

(** ** The tracker once it has stopped, and [reset] *)

Ltac unpack m :=
  let cs := fresh "cs" in let ms := fresh "ms" in let cf := fresh "cf" in
  let d := fresh "done" in let st := fresh "stop" in let th := fresh "th" in
  destruct m as [[cs ms cf d st] th]; cbn in *.

Ltac by_geb :=
  repeat match goal with
  | |- context [?a >=? ?b] => destruct (Z.geb_spec a b)
  | H : context [?a >=? ?b] |- _ => destruct (Z.geb_spec a b)
  end.

Section TrackerFurther.
Import StateManager StateManagerRest BrowserBot TrackerStatements.

Lemma call_keeps_stopped (o : Op) (m : t) :
  shouldContinue m = false -> shouldContinue (call o m) = false.
Proof.
  unfold shouldContinue. unpack m.
  destruct o, stop, done; cbn; intros H; by_geb;
    try reflexivity; try discriminate; try lia.
Qed.

(** X1. The stopped states are final: once [shouldContinue] answers
    [false], no sequence of calls of the five mutators makes it answer
    [true] again. *)
Theorem stopped_stays_stopped (os : list Op) (m : t) :
  shouldContinue m = false -> shouldContinue (calls os m) = false.
Proof.
  revert m. induction os as [|o os IH]; intros m H; [exact H|].
  change (calls (o :: os) m) with (calls os (call o m)).
  apply IH, call_keeps_stopped, H.
Qed.

Lemma stopped_stays_stopped_witness :
  shouldContinue
    (calls [OpNextStep; OpRecordSuccess; OpNextStep]
           (markFailed (StateManager.constructor emptyConfig))) = false.
Proof.
  exact (stopped_stays_stopped [OpNextStep; OpRecordSuccess; OpNextStep]
           (markFailed (StateManager.constructor emptyConfig)) eq_refl).
Defined.

(** X2. On a tracker that has stopped, [getExitReason] answers [success]
    only for a completed task: its last branch, which answers [success]
    without [isDone], is not reached. *)
Theorem stopped_exit_reason (m : t) :
  shouldContinue m = false ->
  (getExitReason m = success <-> isDone (state m) = true).
Proof.
  unfold shouldContinue, getExitReason. unpack m.
  destruct done, stop; cbn; intros H; by_geb;
    split; intros; try reflexivity; try discriminate; try lia.
Qed.

Lemma stopped_exit_reason_witness :
  getExitReason (markFailed (StateManager.constructor emptyConfig)) = success
  <-> isDone (state (markFailed (StateManager.constructor emptyConfig))) = true.
Proof.
  exact (stopped_exit_reason
           (markFailed (StateManager.constructor emptyConfig)) eq_refl).
Defined.

Lemma calls_keep_configuration (os : list Op) (m : t) :
  maxSteps (state (calls os m)) = maxSteps (state m) /\
  maxConsecutiveFailures (calls os m) = maxConsecutiveFailures m.
Proof.
  revert m. induction os as [|o os IH]; intros m; [split; reflexivity|].
  change (calls (o :: os) m) with (calls os (call o m)).
  destruct (IH (call o m)) as [-> ->].
  unpack m. destruct o; split; reflexivity.
Qed.

(** X3. [reset] undoes any history: after any sequence of calls on a
    tracker built from a configuration, it gives back the tracker as it
    was built (the step budget and the threshold are never touched). *)
Theorem reset_restores_constructor (os : list Op) (config : StateManagerConfig) :
  reset (calls os (StateManager.constructor config)) = StateManager.constructor config.
Proof.
  destruct (calls_keep_configuration os (StateManager.constructor config))
    as [Hms Hth].
  unfold reset, with_state. rewrite Hms, Hth. reflexivity.
Qed.

End TrackerFurther.

(** ** The loop of [run] *)

Section RunFurther.
Import StateManager StateManagerRest BrowserBot TrackerStatements.

Lemma iteration_uses_budget options turns m :
  shouldContinue m = true ->
  (budget (fst (iteration options turns m)) < budget m)%nat.
Proof.
  unfold shouldContinue, iteration, budget, getMaxSteps, getCurrentStep.
  unpack m.
  destruct stop; [discriminate|]. destruct done; [discriminate|].
  destruct (Z.geb_spec cs ms); [discriminate|]. intros _.
  destruct (turns (cs + 1)) as [|[] []]; cbn; try lia.
  destruct (_ >=? maxFailuresOf _); cbn; lia.
Qed.

Lemma loop_step options turns m :
  loop options turns m =
  if shouldContinue m then
    if snd (iteration options turns m) then fst (iteration options turns m)
    else loop options turns (fst (iteration options turns m))
  else m.
Proof.
  funelim (loop options turns m).
  all: try rewrite Hcont; try rewrite Hit; cbn; reflexivity.
Qed.

(** What every round keeps, the loop keeps. *)
Lemma loop_invariant (Inv : t -> Prop) options turns :
  (forall m, Inv m -> shouldContinue m = true ->
             Inv (fst (iteration options turns m))) ->
  forall m, Inv m -> Inv (loop options turns m).
Proof.
  intros Hstep m.
  remember (budget m) as b eqn:Hb. revert m Hb.
  induction b as [b IH] using lt_wf_ind. intros m Hb Hinv.
  rewrite loop_step. destruct (shouldContinue m) eqn:Hcont; [|exact Hinv].
  pose proof (iteration_uses_budget options turns m Hcont) as Hlt.
  pose proof (Hstep m Hinv Hcont) as Hnext.
  destruct (snd (iteration options turns m)); [exact Hnext|].
  apply (IH (budget (fst (iteration options turns m)))); subst; auto.
Qed.

(** X4. A run never takes more steps than its budget: the steps it reports
    lie between the step count it started from and the larger of that count
    and [maxSteps]; on a new agent, between 0 and [maxSteps]. *)
Theorem run_steps_bounded (current : t) (options : option RunOptions)
    (turns : Z -> Turn) :
  let m0 := initStateManager current options in
  currentStep (state m0) <= res_stepsTaken (run current options turns)
  <= Z.max (currentStep (state m0)) (maxSteps (state m0)).
Proof.
  intros m0. unfold run, buildResult, getState. cbn [res_stepsTaken].
  set (Inv := fun m : t =>
                maxSteps (state m) = maxSteps (state m0) /\
                currentStep (state m0) <= currentStep (state m)
                <= Z.max (currentStep (state m0)) (maxSteps (state m0))).
  assert (H : Inv (loop options turns m0)).
  { apply loop_invariant.
    - intros m [Hms Hcs] Hcont. unfold Inv, iteration, shouldContinue in *.
      unpack m. destruct stop; [discriminate|]. destruct done; [discriminate|].
      destruct (Z.geb_spec cs ms); [discriminate|].
      destruct (turns (cs + 1)) as [|[] []]; cbn;
        try (destruct (_ >=? maxFailuresOf _); cbn); split; lia.
    - unfold Inv. split; [reflexivity | lia]. }
  exact (proj2 H).
Qed.

(** A new agent's tracker, whatever the options, is a new tracker with the
    default threshold. *)
Lemma initStateManager_fresh (options : option RunOptions) :
  exists ms, initStateManager fresh options
             = StateManager.constructor (mkConfig (Some ms) None).
Proof.
  destruct options as [[[n|] mf]|]; cbn; try (exists 100; reflexivity).
  destruct (n =? 0); [exists 100 | exists n]; reflexivity.
Qed.

(** With a tracker of threshold 3, asking for a larger tolerance changes
    nothing: the tracker stops the loop at the third failure in a row. *)
Lemma loop_larger_tolerance (f : Z) (steps steps' : option Z)
    (turns : Z -> Turn) (m : t) :
  3 <= f ->
  maxConsecutiveFailures m = 3 ->
  loop (Some (mkRunOptions steps (Some f))) turns m
  = loop (Some (mkRunOptions steps' None)) turns m.
Proof.
  intros Hf.
  remember (budget m) as b eqn:Hb. revert m Hb.
  induction b as [b IH] using lt_wf_ind. intros m Hb Hth.
  rewrite (loop_step (Some (mkRunOptions steps (Some f)))).
  rewrite (loop_step (Some (mkRunOptions steps' None))).
  destruct (shouldContinue m) eqn:Hcont; [|reflexivity].
  pose proof (iteration_uses_budget (Some (mkRunOptions steps' None)) turns m Hcont)
    as Hlt.
  unfold iteration in *. cbn [maxFailuresOf nullish opt_maxFailures] in *.
  destruct (turns (getCurrentStep (nextStep m))) as [|[] []];
    cbn [fst snd] in *; try reflexivity.
  - set (m' := recordFailure (nextStep m)) in *.
    assert (Hth' : maxConsecutiveFailures m' = 3) by (subst m'; unpack m; exact Hth).
    destruct (getConsecutiveFailures m' >=? 3) eqn:H3;
      destruct (getConsecutiveFailures m' >=? f) eqn:Hge; cbn [fst snd] in *.
    + reflexivity.
    + rewrite loop_step.
      assert (Hstop : shouldContinue m' = false).
      { subst m'. unfold shouldContinue, getConsecutiveFailures in *.
        unpack m. subst th. rewrite H3. reflexivity. }
      rewrite Hstop. reflexivity.
    + exfalso. by_geb; try discriminate; lia.
    + apply (IH (budget m')); subst; auto.
  - set (m' := recordSuccess (nextStep m)) in *.
    apply (IH (budget m')); subst; auto.
Qed.

(** X5. On a new agent, [maxFailures] of 3 or more has no effect: the run
    gives the result it gives without the option, so it never goes past
    three failures in a row. *)
Theorem run_larger_tolerance (f : Z) (steps : option Z) (turns : Z -> Turn) :
  3 <= f ->
  run fresh (Some (mkRunOptions steps (Some f))) turns
  = run fresh (Some (mkRunOptions steps None)) turns.
Proof.
  intros Hf. unfold run. f_equal.
  change (initStateManager fresh (Some (mkRunOptions steps (Some f))))
    with (initStateManager fresh (Some (mkRunOptions steps None))).
  apply loop_larger_tolerance; [exact Hf|].
  destruct (initStateManager_fresh (Some (mkRunOptions steps None))) as (ms & ->).
  reflexivity.
Qed.

Lemma run_larger_tolerance_witness :
  run fresh (Some (mkRunOptions (Some 20) (Some 5))) (fun _ => Raised)
  = run fresh (Some (mkRunOptions (Some 20) None)) (fun _ => Raised).
Proof.
  exact (run_larger_tolerance 5 (Some 20) (fun _ => Raised) ltac:(lia)).
Defined.

End RunFurther.

(** ** Runs that end on a verdict or on failures *)

Section VerdictFurther.
Import StateManager BrowserBot TrackerStatements FurtherStatements.

Lemma loop_quiet_prefix options turns (ms n c : Z) :
  0 <= c < n -> n - 1 <= ms ->
  (forall k, c < k < n -> turns k = Evaluated false false) ->
  loop options turns (advanced ms c) = loop options turns (advanced ms (n - 1)).
Proof.
  intros Hc Hn Hq.
  remember (Z.to_nat (n - 1 - c)) as d eqn:Hd. revert c Hc Hq Hd.
  induction d as [|d IH]; intros c Hc Hq Hd.
  - replace (n - 1) with c by lia. reflexivity.
  - rewrite loop_step. unfold shouldContinue, iteration. cbn.
    destruct (Z.geb_spec c ms); [lia|].
    rewrite (Hq (c + 1)) by lia. cbn.
    apply (IH (c + 1)); [lia | | lia].
    intros k Hk. apply Hq. lia.
Qed.

Lemma run_fresh_loop (options : option RunOptions) (turns : Z -> Turn) :
  run fresh options turns
  = buildResult (loop options turns (advanced (budgetOf options) 0)).
Proof.
  unfold run, budgetOf.
  destruct (initStateManager_fresh options) as (ms & ->). reflexivity.
Qed.

(** X6. On a new agent, when the turns before step [n] are quiet and the
    turn of step [n] (within the budget) declares the task complete, the run
    ends there: [success] is [true], [stepsTaken] is [n] and the exit reason
    is [success]. *)
Theorem run_completes_at (options : option RunOptions) (turns : Z -> Turn)
    (n : Z) (isFailed : bool) :
  1 <= n <= budgetOf options ->
  quietBefore turns n ->
  turns n = Evaluated true isFailed ->
  run fresh options turns
  = {| res_success := true;
       res_message := "Task completed successfully";
       res_stepsTaken := n;
       res_exitReason := success |}.
Proof.
  intros Hn Hq Hturn. rewrite run_fresh_loop.
  rewrite (loop_quiet_prefix options turns (budgetOf options) n 0)
    by (try lia; intros k Hk; apply Hq; lia).
  rewrite loop_step. unfold shouldContinue, iteration. cbn.
  destruct (Z.geb_spec (n - 1) (budgetOf options)); [lia|].
  rewrite !Z.sub_add. rewrite Hturn. cbn.
  unfold buildResult, getExitReason. cbn. rewrite ?Z.sub_add. reflexivity.
Qed.

Lemma run_completes_at_witness :
  run fresh (Some (mkRunOptions (Some 5) None))
      (fun step => if step =? 2 then Evaluated true false
                   else Evaluated false false)
  = {| res_success := true;
       res_message := "Task completed successfully";
       res_stepsTaken := 2;
       res_exitReason := success |}.
Proof.
  refine (run_completes_at (Some (mkRunOptions (Some 5) None)) _ 2 false _ _ eq_refl).
  - cbn. lia.
  - intros k Hk. assert (k = 1) as -> by lia. reflexivity.
Defined.

(** X7. When instead the turn of step [n] declares the task failed, the run
    ends there without success; the exit reason is [error], except on the
    last step of the budget, where the exhausted budget takes precedence and
    the exit reason is [max_steps]. *)
Theorem run_fails_at (options : option RunOptions) (turns : Z -> Turn) (n : Z) :
  1 <= n <= budgetOf options ->
  quietBefore turns n ->
  turns n = Evaluated false true ->
  run fresh options turns
  = {| res_success := false;
       res_message := if n <? budgetOf options then "Task stopped: error"
                      else "Task stopped: max_steps";
       res_stepsTaken := n;
       res_exitReason := if n <? budgetOf options then error else max_steps |}.
Proof.
  intros Hn Hq Hturn. rewrite run_fresh_loop.
  rewrite (loop_quiet_prefix options turns (budgetOf options) n 0)
    by (try lia; intros k Hk; apply Hq; lia).
  rewrite loop_step. unfold shouldContinue, iteration. cbn.
  destruct (Z.geb_spec (n - 1) (budgetOf options)); [lia|].
  rewrite !Z.sub_add. rewrite Hturn. cbn.
  unfold buildResult, getExitReason. cbn. rewrite ?Z.sub_add.
  destruct (Z.ltb_spec n (budgetOf options)); by_geb; try lia; reflexivity.
Qed.

Lemma run_fails_at_witness :
  run fresh (Some (mkRunOptions (Some 2) None))
      (fun step => if step =? 2 then Evaluated false true
                   else Evaluated false false)
  = {| res_success := false;
       res_message := "Task stopped: max_steps";
       res_stepsTaken := 2;
       res_exitReason := max_steps |}.
Proof.
  refine (run_fails_at (Some (mkRunOptions (Some 2) None)) _ 2 _ _ eq_refl).
  - cbn. lia.
  - intros k Hk. assert (k = 1) as -> by lia. reflexivity.
Defined.

Lemma loop_raise options turns (ms c cf : Z) :
  c < ms -> turns (c + 1) = Raised ->
  cf + 1 < 3 -> cf + 1 < maxFailuresOf options ->
  loop options turns (tracking ms c cf false)
  = loop options turns (tracking ms (c + 1) (cf + 1) false).
Proof.
  intros Hc Ht H3 Hf. rewrite loop_step at 1.
  assert (E1 : (c >=? ms) = false) by (destruct (Z.geb_spec c ms); [lia | reflexivity]).
  assert (E2 : (cf + 1 >=? 3) = false)
    by (destruct (Z.geb_spec (cf + 1) 3); [lia | reflexivity]).
  assert (E3 : (cf + 1 >=? maxFailuresOf options) = false)
    by (destruct (Z.geb_spec (cf + 1) (maxFailuresOf options)); [lia | reflexivity]).
  unfold shouldContinue, iteration, tracking, recordFailure, nextStep,
    with_state, getConsecutiveFailures, getCurrentStep.
  cbn. rewrite E1, Ht. cbn. rewrite E2, E3. reflexivity.
Qed.

Lemma loop_raise_third options turns (ms c : Z) :
  c < ms -> turns (c + 1) = Raised ->
  3 <= maxFailuresOf options ->
  loop options turns (tracking ms c 2 false) = tracking ms (c + 1) 3 true.
Proof.
  intros Hc Ht Hf. rewrite loop_step.
  assert (E1 : (c >=? ms) = false) by (destruct (Z.geb_spec c ms); [lia | reflexivity]).
  unfold shouldContinue, iteration, tracking, recordFailure, nextStep,
    with_state, getConsecutiveFailures, getCurrentStep.
  cbn. rewrite E1, Ht. cbn.
  destruct (3 >=? maxFailuresOf options); cbn; [reflexivity|].
  rewrite loop_step. reflexivity.
Qed.

(** X8. With the default tolerance, or any [maxFailures] of 3 or more, three
    turns in a row that throw (after quiet turns, within the budget) end the
    run at the third with the exit reason [max_failures]. *)
Theorem run_three_failures (options : option RunOptions) (turns : Z -> Turn)
    (n : Z) :
  3 <= maxFailuresOf options ->
  1 <= n -> n + 2 <= budgetOf options ->
  quietBefore turns n ->
  turns n = Raised -> turns (n + 1) = Raised -> turns (n + 2) = Raised ->
  run fresh options turns
  = {| res_success := false;
       res_message := "Task stopped: max_failures";
       res_stepsTaken := n + 2;
       res_exitReason := max_failures |}.
Proof.
  intros Hf Hn Hms Hq H1 H2 H3. rewrite run_fresh_loop.
  rewrite (loop_quiet_prefix options turns (budgetOf options) n 0)
    by (try lia; intros k Hk; apply Hq; lia).
  change (advanced (budgetOf options) (n - 1))
    with (tracking (budgetOf options) (n - 1) 0 false).
  rewrite loop_raise; try lia; rewrite ?Z.sub_add; try assumption.
  change (0 + 1) with 1.
  rewrite loop_raise; try lia; try assumption.
  change (1 + 1) with 2.
  rewrite loop_raise_third; try lia;
    rewrite <- ?Z.add_assoc; change (1 + 1) with 2; try assumption.
  unfold buildResult, getExitReason, tracking. cbn. reflexivity.
Qed.

Lemma run_three_failures_witness :
  run fresh (Some (mkRunOptions (Some 20) (Some 5))) (fun _ => Raised)
  = {| res_success := false;
       res_message := "Task stopped: max_failures";
       res_stepsTaken := 3;
       res_exitReason := max_failures |}.
Proof.
  refine (run_three_failures (Some (mkRunOptions (Some 20) (Some 5)))
            (fun _ => Raised) 1 _ _ _ _ eq_refl eq_refl eq_refl).
  - cbn. lia.
  - lia.
  - cbn. lia.
  - intros k Hk. lia.
Defined.

End VerdictFurther.

(** ** One turn: the stream, the verdict *)

Section TurnFurther.
Import JS StateManager BrowserBot BrowserBotTurn PromptBuilder FurtherStatements.

Lemma has_In (set : list jsstring) (x : jsstring) :
  ResponseTrimmer.has set x = true <-> In x set.
Proof.
  unfold ResponseTrimmer.has, ResponseTrimmer.streq. rewrite existsb_exists.
  split.
  - intros (y & Hin & Hy). destruct (list_eq_dec N.eq_dec x y); [subst; exact Hin | discriminate].
  - intros Hin. exists x. split; [exact Hin|].
    destruct (list_eq_dec N.eq_dec x x); [reflexivity | contradiction].
Qed.

Lemma consume_from (chunks : list StreamChunk) (text : jsstring)
    (tools : list jsstring) :
  NoDup tools ->
  let res := fold_left chunkStep chunks (text, tools) in
  fst res = text ++ List.concat (map contentOf chunks) /\
  NoDup (snd res) /\
  (forall t, In t (snd res) <-> In t tools \/ In t (flat_map startedTool chunks)).
Proof.
  revert text tools. induction chunks as [|chunk chunks IH]; intros text tools Hnd.
  - cbn. rewrite app_nil_r. repeat split; auto. intros [H | []]; exact H.
  - cbn [fold_left map List.concat flat_map].
    set (next := chunkStep (text, tools) chunk).
    assert (Hnext : fst next = text ++ contentOf chunk /\
                    NoDup (snd next) /\
                    (forall t, In t (snd next) <-> In t tools \/ In t (startedTool chunk))).
    { subst next. unfold chunkStep, contentOf, startedTool.
      destruct chunk as [[content|] [[[] tool err]|]]; cbn;
        rewrite ?app_nil_r; (split; [reflexivity|]);
        try (split; [exact Hnd | intros t; split; [auto | intros [H | []]; exact H]]).
      all: destruct (ResponseTrimmer.has tools tool) eqn:Hhas.
      all: try (apply has_In in Hhas; split; [exact Hnd|];
                intros t; split; [auto | intros [H | [<- | []]]; assumption]).
      all: assert (Hnot : ~ In tool tools)
             by (intros Hin; apply has_In in Hin; congruence).
      all: split;
             [ apply NoDup_app; [exact Hnd | constructor; [intros [] | constructor] |];
               intros x Hx [<- | []]; contradiction
             | intros t; rewrite in_app_iff; reflexivity ]. }
    destruct Hnext as (Htext & Hnd' & Hin').
    destruct next as [text' tools']. cbn [fst snd] in *.
    destruct (IH text' tools' Hnd') as (H1 & H2 & H3).
    split; [rewrite H1, Htext, <- app_assoc; reflexivity | split; [exact H2|]].
    intros t. rewrite H3, Hin', in_app_iff. tauto.
Qed.

Lemma streamLLMDecision_text (chunks : list StreamChunk) :
  streamLLMDecision (Streams chunks false)
    = Some (List.concat (map contentOf chunks)) /\
  streamLLMDecision (Streams chunks true) = None.
Proof.
  destruct (consume_from chunks [] [] (NoDup_nil _)) as (H1 & _).
  unfold streamLLMDecision, consume. split; [f_equal; exact H1 | reflexivity].
Qed.

(** X9. When the stream ends normally, [streamLLMDecision] returns the text
    fragments of the chunks put end to end in the order they came; the tools
    it has seen start are listed without repetition, and they are exactly
    the tools of the start events.  When the call or the stream throws, no
    text is returned. *)
Theorem streamLLMDecision_accumulates (chunks : list StreamChunk) :
  streamLLMDecision (Streams chunks false)
    = Some (List.concat (map contentOf chunks)) /\
  streamLLMDecision (Streams chunks true) = None /\
  NoDup (toolsUsed chunks) /\
  (forall tool, In tool (toolsUsed chunks)
                <-> In tool (flat_map startedTool chunks)).
Proof.
  destruct (consume_from chunks [] [] (NoDup_nil _)) as (H1 & H2 & H3).
  unfold streamLLMDecision, toolsUsed, consume.
  split; [f_equal; exact H1 | split; [reflexivity | split; [exact H2|]]].
  intros tool. split.
  - intros H. apply H3 in H as [[] | H]. exact H.
  - intros H. apply H3. right. exact H.
Qed.

Lemma toLowerCase_app (a b : jsstring) :
  toLowerCase (a ++ b) = toLowerCase a ++ toLowerCase b.
Proof. apply flat_map_app. Qed.

Lemma includes_self_infix (pre s post : jsstring) :
  includes (pre ++ s ++ post) s = true.
Proof.
  destruct (includes (pre ++ s ++ post) s) eqn:H; [reflexivity|].
  apply includes_infix in H.
  assert (Hs : startsWith s s = true)
    by (apply startsWith_app; exists []; symmetry; apply app_nil_r).
  destruct s; cbn [includes] in H; rewrite Hs in H; discriminate.
Qed.

(** A part of the response that lowercases to [signal] makes the lowercased
    response contain it. *)
Lemma includes_lowercased (pre w post signal : jsstring) :
  toLowerCase w = signal ->
  includes (toLowerCase (pre ++ w ++ post)) signal = true.
Proof.
  intros <-. rewrite !toLowerCase_app. apply includes_self_infix.
Qed.

Lemma isComplete_signal (response signal : jsstring) :
  In signal completionSignals ->
  includes (toLowerCase response) signal = true ->
  isComplete (parseResponse response) = true.
Proof.
  unfold parseResponse. cbn [isComplete].
  intros [<- | [<- | [<- | []]]] ->; rewrite ?orb_true_r; reflexivity.
Qed.

Lemma isFailed_signal (response signal : jsstring) :
  In signal failureSignals ->
  includes (toLowerCase response) signal = true ->
  isFailed (parseResponse response) = true.
Proof.
  unfold parseResponse. cbn [isFailed].
  intros [<- | [<- | [<- | []]]] ->; rewrite ?orb_true_r; reflexivity.
Qed.

Lemma isComplete_no_signal (response : jsstring) :
  (forall s, In s completionSignals -> includes (toLowerCase response) s = false) ->
  isComplete (parseResponse response) = false.
Proof.
  intros H. unfold parseResponse. cbn [isComplete].
  rewrite !H by (cbn; auto). reflexivity.
Qed.

Lemma isFailed_no_signal (response : jsstring) :
  (forall s, In s failureSignals -> includes (toLowerCase response) s = false) ->
  isFailed (parseResponse response) = false.
Proof.
  intros H. unfold parseResponse. cbn [isFailed].
  rewrite !H by (cbn; auto). reflexivity.
Qed.

(** X10. What the loop makes of a turn whose stream ends normally, from the
    text it streamed: if some part of the text lowercases to a completion
    signal the turn counts as complete, even when a failure signal is there
    too; if some part lowercases to a failure signal and no completion signal
    occurs, it counts as failed; if no signal occurs, the loop goes on.  A
    call or a stream that throws counts as a failure of the turn. *)
Theorem turn_verdict (chunks : list StreamChunk) :
  let text := List.concat (map contentOf chunks) in
  let lowered := toLowerCase text in
  (forall pre w post signal,
     text = pre ++ w ++ post -> toLowerCase w = signal ->
     In signal completionSignals ->
     turn (Streams chunks false) = Evaluated true false) /\
  (forall pre w post signal,
     text = pre ++ w ++ post -> toLowerCase w = signal ->
     In signal failureSignals ->
     (forall s, In s completionSignals -> includes lowered s = false) ->
     turn (Streams chunks false) = Evaluated false true) /\
  ((forall s, In s (completionSignals ++ failureSignals) ->
              includes lowered s = false) ->
   turn (Streams chunks false) = Evaluated false false) /\
  turn (Streams chunks true) = Raised /\
  turn CallThrows = Raised.
Proof.
  intros text lowered.
  destruct (streamLLMDecision_text chunks) as (Hs & Ht).
  unfold turn. rewrite Hs, Ht. fold text.
  split; [|split; [|split; [|split; reflexivity]]].
  - intros pre w post signal Htext Hw Hin.
    unfold evaluateResponse.
    rewrite (isComplete_signal text signal Hin)
      by (rewrite Htext; apply includes_lowercased, Hw).
    reflexivity.
  - intros pre w post signal Htext Hw Hin Hnone.
    unfold evaluateResponse.
    rewrite (isComplete_no_signal text Hnone).
    rewrite (isFailed_signal text signal Hin)
      by (rewrite Htext; apply includes_lowercased, Hw).
    reflexivity.
  - intros Hnone. unfold evaluateResponse.
    rewrite isComplete_no_signal
      by (intros s Hin; apply Hnone, in_or_app; left; exact Hin).
    rewrite isFailed_no_signal
      by (intros s Hin; apply Hnone, in_or_app; right; exact Hin).
    reflexivity.
Qed.

Lemma turn_verdict_witness :
  turn (Streams [mkChunk (Some (lit "It is done. TASK ")) None;
                 mkChunk (Some (lit "Complete: bought; the first try: task failed"))
                         None] false)
  = Evaluated true false.
Proof.
  refine (proj1 (turn_verdict
                   [mkChunk (Some (lit "It is done. TASK ")) None;
                    mkChunk (Some (lit "Complete: bought; the first try: task failed"))
                            None])
            (lit "It is done. ") (lit "TASK Complete")
            (lit ": bought; the first try: task failed") (lit "task complete")
            eq_refl eq_refl _).
  left. reflexivity.
Defined.

End TurnFurther.

(** ** The conversation history *)

Section HistoryFurther.
Import JS FurtherStatements ConversationHistory.

Lemma slice_negative {A : Type} (l : list A) (count : Z) :
  1 <= count ->
  slice l (- count) = skipn (List.length l - Z.to_nat count) l.
Proof.
  intros Hc. unfold slice.
  destruct (Z.ltb_spec (- count) 0); [|lia]. f_equal. lia.
Qed.

(** X11. [getRecentMessages count], for [count >= 1], is the last [count]
    messages (all of them when there are fewer); for [count = 0] it is not
    the empty list but every message; and a negative [count] drops that many
    messages from the front. *)
Theorem getRecentMessages_edges (h : t) (count : Z) :
  (1 <= count ->
   exists older,
     messages h = older ++ getRecentMessages h count /\
     List.length (getRecentMessages h count)
       = Nat.min (Z.to_nat count) (List.length (messages h))) /\
  (count = 0 -> getRecentMessages h count = messages h) /\
  (count < 0 ->
   getRecentMessages h count = skipn (Z.to_nat (- count)) (messages h)).
Proof.
  unfold getRecentMessages. split; [|split].
  - intros Hc. rewrite slice_negative by exact Hc.
    exists (firstn (List.length (messages h) - Z.to_nat count) (messages h)).
    rewrite firstn_skipn, length_skipn. split; [reflexivity | lia].
  - intros ->. unfold slice. change (- 0 <? 0) with false. cbv iota.
    rewrite Z.min_l by lia. reflexivity.
  - intros Hc. unfold slice.
    destruct (Z.ltb_spec (- count) 0); [lia|].
    destruct (Z.min_spec (- count) (Z.of_nat (List.length (messages h))))
      as [[_ ->] | [Hle ->]]; [reflexivity|].
    rewrite Nat2Z.id, !skipn_all2 by lia. reflexivity.
Qed.

Lemma getRecentMessages_edges_witness :
  let h := addAssistantMessage
             (addUserMessage (constructor 0) 1 (lit "open the page") (Some 1))
             2 (lit "opened") (Some 1) None in
  (exists older,
     messages h = older ++ getRecentMessages h 1 /\
     List.length (getRecentMessages h 1) = 1%nat) /\
  getRecentMessages h 0 = messages h.
Proof.
  cbv zeta.
  pose proof (getRecentMessages_edges
                (addAssistantMessage
                   (addUserMessage (constructor 0) 1 (lit "open the page") (Some 1))
                   2 (lit "opened") (Some 1) None)) as H.
  split; [exact (proj1 (H 1) ltac:(lia)) | exact (proj1 (proj2 (H 0)) eq_refl)].
Defined.

Lemma truncateContent_short (content : jsstring) (maxSize : Z) :
  Z.of_nat (List.length content) <= maxSize ->
  truncateContent content maxSize = content.
Proof.
  intros H. unfold truncateContent.
  destruct (Z.leb_spec (Z.of_nat (List.length content)) maxSize); [reflexivity | lia].
Qed.

Lemma truncateContent_long (content : jsstring) (maxSize : Z) :
  maxSize < Z.of_nat (List.length content) ->
  truncateContent content maxSize
  = firstn (Z.to_nat maxSize) content
    ++ truncationNotice (Z.of_nat (List.length content) - maxSize).
Proof.
  intros H. unfold truncateContent, truncationNotice.
  destruct (Z.leb_spec (Z.of_nat (List.length content)) maxSize); [lia | reflexivity].
Qed.

Lemma truncationNotice_length (omitted : Z) :
  (2 <= List.length (truncationNotice omitted))%nat.
Proof. unfold truncationNotice. cbn [app List.length]. lia. Qed.

Lemma slice_incl {A : Type} (l : list A) (start : Z) (x : A) :
  In x (slice l start) -> In x l.
Proof.
  unfold slice. intros H.
  rewrite <- (firstn_skipn (Z.to_nat
    (if start <? 0 then Z.max (Z.of_nat (List.length l) + start) 0
     else Z.min start (Z.of_nat (List.length l)))) l).
  apply in_or_app. right. exact H.
Qed.

(** X12. [getMessagesForNeuroLink] never hands over a system message, hands
    over at most [maxMessages] messages when that limit is positive (the
    system messages among the last [maxMessages] are dropped, not replaced),
    and every message it hands over has the role of a message of the
    history and this content: that message's content as it is when it is no
    longer than [maxContentSize]; otherwise its first [maxContentSize] code
    units followed by the notice with the count of the units left out, which
    makes it longer than [maxContentSize]. *)
Theorem getMessagesForNeuroLink_bounds (h : t) (maxMessages maxContentSize : option Z) :
  let out := getMessagesForNeuroLink h maxMessages maxContentSize in
  let limit := nullish maxContentSize 60000 in
  Forall (fun m => nl_role m <> system) out /\
  (forall n, maxMessages = Some n -> 0 < n ->
             (List.length out <= Z.to_nat n)%nat) /\
  Forall (fun m =>
            exists msg,
              In msg (messages h) /\
              nl_role m = role msg /\
              (Z.of_nat (List.length (content msg)) <= limit ->
               nl_content m = content msg) /\
              (limit < Z.of_nat (List.length (content msg)) ->
               nl_content m
               = firstn (Z.to_nat limit) (content msg)
                 ++ truncationNotice
                      (Z.of_nat (List.length (content msg)) - limit) /\
               limit < Z.of_nat (List.length (nl_content m)))) out.
Proof.
  intros out limit. subst out. unfold getMessagesForNeuroLink. fold limit.
  set (recent := match maxMessages with
                 | Some n => if negb (n =? 0) && (n >? 0)
                             then slice (messages h) (- n) else messages h
                 | None => messages h
                 end).
  assert (Hrecent : forall msg, In msg recent -> In msg (messages h)).
  { subst recent. destruct maxMessages as [n|]; [|auto].
    destruct (negb (n =? 0) && (n >? 0)); [|auto].
    intros msg. apply slice_incl. }
  split; [|split].
  - apply Forall_forall. intros m Hm. apply in_map_iff in Hm as (msg & <- & Hin).
    apply filter_In in Hin as [_ Hrole]. cbn [nl_role].
    unfold isUserOrAssistant in Hrole. destruct (role msg); congruence.
  - intros n -> Hn. rewrite length_map.
    etransitivity; [apply filter_length_le|]. subst recent.
    replace (negb (n =? 0) && (n >? 0)) with true.
    + rewrite slice_negative, length_skipn by lia. lia.
    + symmetry. apply andb_true_iff. split.
      * apply negb_true_iff, Z.eqb_neq. lia.
      * apply Z.gtb_lt. lia.
  - apply Forall_forall. intros m Hm. apply in_map_iff in Hm as (msg & <- & Hin).
    apply filter_In in Hin as [Hin _]. exists msg. cbn [nl_role nl_content].
    split; [apply Hrecent, Hin | split; [reflexivity | split]].
    + apply truncateContent_short.
    + intros Hlong. rewrite (truncateContent_long _ _ Hlong).
      split; [reflexivity|].
      pose proof (truncationNotice_length
                    (Z.of_nat (List.length (content msg)) - limit)) as Hnotice.
      rewrite length_app, length_firstn. lia.
Qed.

(** Three units are kept of eleven, and the notice makes seventy of them. *)
Example getMessagesForNeuroLink_truncates :
  let h := addAssistantMessage (constructor 0) 1 (lit "hello world") None None in
  map (fun m => List.length (nl_content m))
      (getMessagesForNeuroLink h None (Some 3)) = [70%nat].
Proof. reflexivity. Qed.

Lemma join_infix (sep : jsstring) (parts : list jsstring) (p : jsstring) :
  In p parts -> exists a b, join sep parts = a ++ p ++ b.
Proof.
  induction parts as [|q parts IH]; [intros []|].
  intros [-> | Hin].
  - destruct parts as [|r parts].
    + exists [], []. cbn. rewrite app_nil_r. reflexivity.
    + exists [], (sep ++ join sep (r :: parts)). reflexivity.
  - destruct (IH Hin) as (a & b & Heq). destruct parts as [|r parts]; [destruct Hin|].
    exists (q ++ sep ++ a), b.
    change (join sep (q :: r :: parts)) with (q ++ sep ++ join sep (r :: parts)).
    rewrite Heq, <- !app_assoc. reflexivity.
Qed.

(** X13. [looksComplete] matches substrings: it answers [true] as soon as
    one of the last three messages has a part that lowercases to one of the
    keywords, inside a longer word as well. *)
Theorem looksComplete_substring (h : t) (msg : ConversationMessage)
    (pre w post keyword : jsstring) :
  In msg (getRecentMessages h 3) ->
  content msg = pre ++ w ++ post ->
  toLowerCase w = keyword ->
  In keyword completionKeywords ->
  looksComplete h = true.
Proof.
  intros Hin Hcontent Hw Hkey. unfold looksComplete.
  apply existsb_exists. exists keyword. split; [exact Hkey|].
  destruct (join_infix [space]
              (map (fun m => toLowerCase (content m)) (getRecentMessages h 3))
              (toLowerCase (content msg))) as (a & b & ->).
  { apply in_map_iff. exists msg. split; [reflexivity | exact Hin]. }
  rewrite Hcontent, !toLowerCase_app, Hw, <- !app_assoc.
  rewrite (app_assoc a). apply includes_self_infix.
Qed.

Lemma looksComplete_substring_witness :
  looksComplete
    (addAssistantMessage (constructor 0) 1 (lit "I abandoned the form")
                         (Some 1) None) = true.
Proof.
  refine (looksComplete_substring _
            (mkMessage assistant (lit "I abandoned the form") None (Some 1) (Some 1))
            (lit "I aban") (lit "done") (lit "d the form") (lit "done")
            _ eq_refl eq_refl _).
  - left. reflexivity.
  - cbn. auto.
Defined.

End HistoryFurther.

(** ** The element filter: order, skip sections, well-formed lines *)

Section TrimmerFurther.
Import JS ResponseTrimmer TrimmerStatements FurtherStatements.

Lemma fold_filterStep_printed (lines : list jsstring) (st : Filter) :
  exists emitted,
    output (fold_left filterStep lines st) = output st ++ emitted /\
    printedFrom lines emitted.
Proof.
  revert st. induction lines as [|line lines IH]; intros st.
  - exists []. cbn. rewrite app_nil_r. split; [reflexivity | constructor].
  - cbn [fold_left].
    destruct (IH (filterStep st line)) as (emitted & Hout & Hprinted).
    destruct (filterStep_output st line)
      as [Hsame | (e & f & Hp & Hi & Hf & Hpush)].
    + exists emitted. rewrite Hout, Hsame.
      split; [reflexivity | constructor; exact Hprinted].
    + exists (f :: emitted). rewrite Hout, Hpush, <- app_assoc.
      split; [reflexivity | econstructor; eassumption].
Qed.

Lemma printedFrom_emittedFrom (lines emitted : list jsstring) :
  printedFrom lines emitted -> Forall (emittedFrom lines) emitted.
Proof.
  induction 1 as [| line lines emitted _ IH
                  | line f lines emitted e Hp Hi Hf _ IH].
  - constructor.
  - eapply Forall_impl; [|exact IH].
    intros x (l & el & Hin & H). exists l, el. split; [right; exact Hin | exact H].
  - constructor.
    + exists line, e. split; [left; reflexivity | auto].
    + eapply Forall_impl; [|exact IH].
      intros x (l & el & Hin & H). exists l, el. split; [right; exact Hin | exact H].
Qed.

Lemma printedFrom_length (lines emitted : list jsstring) :
  printedFrom lines emitted -> (List.length emitted <= List.length lines)%nat.
Proof. induction 1; cbn; lia. Qed.

(** X14. The element lines of the output follow the lines of the input:
    each comes from a line of its own, in the same order, so there are no
    more of them than input lines and the output has at most seven lines
    more than the input. *)
Theorem elements_in_input_order (yamlText : jsstring) :
  let lines := split yamlText [newline] in
  let header := extractHeader lines in
  let outLines := split (trimYAMLSnapshot yamlText) [newline] in
  exists emitted : list jsstring,
    outLines =
      initialOutput (fst header) (snd header) ++ emitted
      ++ [[]; lit "Total interactive elements: "
                ++ numberToString (List.length emitted)] /\
    printedFrom lines emitted /\
    (List.length emitted <= List.length lines)%nat /\
    (List.length outLines <= List.length lines + 7)%nat.
Proof.
  intros lines header outLines. subst outLines.
  rewrite split_trimYAMLSnapshot.
  unfold outputLines, filteredOutput. fold lines. fold header.
  rewrite (surjective_pairing header).
  destruct (fold_filterStep_printed lines
              (mkFilter false 0 (initialOutput (fst header) (snd header))))
    as (emitted & -> & Hprinted).
  pose proof (printedFrom_length _ _ Hprinted) as Hlen.
  exists emitted. cbn [output]. split; [|split; [exact Hprinted | split; [exact Hlen|]]].
  - unfold summary.
    rewrite !filter_app, initialOutput_no_bracket,
      (emitted_bracket lines emitted (printedFrom_emittedFrom _ _ Hprinted)).
    cbn [filter startsWith lit app]. rewrite app_nil_r.
    rewrite <- !app_assoc. reflexivity.
  - rewrite !length_app. cbn [List.length].
    assert (Hinit : (List.length (initialOutput (fst header) (snd header)) <= 5)%nat).
    { unfold initialOutput.
      destruct (nonEmpty (fst header)), (nonEmpty (snd header)); cbn; lia. }
    lia.
Qed.

Lemma filterStep_header (st : Filter) (header : jsstring) :
  opensSkipSection header = true ->
  filterStep st header = mkFilter true (getIndentLevel header) (output st).
Proof.
  unfold opensSkipSection, hasSkipKeyword, filterStep.
  intros H. apply andb_true_iff in H as [H Hkey].
  apply andb_true_iff in H as [Hne Hmeta].
  rewrite Hne. cbn [negb]. apply negb_true_iff in Hmeta. rewrite Hmeta, Hkey.
  reflexivity.
Qed.

Lemma filterStep_nested (depth : nat) (out : list jsstring) (line : jsstring) :
  nestedBelow depth line ->
  filterStep (mkFilter true depth out) line = mkFilter true depth out.
Proof.
  unfold nestedBelow, hasSkipKeyword, filterStep. intros [Hdepth Hkey].
  destruct (negb (nonEmpty (trim line))); [reflexivity|].
  destruct (_ || _); [reflexivity|].
  rewrite Hkey. cbn [inSkipSection skipDepth].
  destruct (Nat.leb_spec (getIndentLevel line) depth); [lia | reflexivity].
Qed.

(** X15. A line with a skip keyword opens a skip section: the lines that
    follow it at a deeper indentation, and hold no skip keyword themselves,
    are passed over as if they were not there, whatever they would parse
    to. *)
Theorem skip_section_passed_over (st : Filter) (header : jsstring)
    (children rest : list jsstring) :
  opensSkipSection header = true ->
  Forall (nestedBelow (getIndentLevel header)) children ->
  fold_left filterStep (header :: children ++ rest) st
  = fold_left filterStep (header :: rest) st /\
  output (fold_left filterStep (header :: children) st) = output st.
Proof.
  intros Hheader Hchildren. cbn [fold_left].
  rewrite (filterStep_header st header Hheader).
  assert (Hfold : fold_left filterStep children
                    (mkFilter true (getIndentLevel header) (output st))
                  = mkFilter true (getIndentLevel header) (output st)).
  { induction Hchildren as [|c children Hc _ IH]; [reflexivity|].
    cbn [fold_left]. rewrite (filterStep_nested _ _ c Hc). exact IH. }
  split.
  - rewrite fold_left_app, Hfold. reflexivity.
  - rewrite Hfold. reflexivity.
Qed.

Lemma skip_section_passed_over_witness :
  let header := lit "  - link " ++ quoted (lit "Skip to content") ++ lit " [ref=e3]:" in
  let child := lit "    - button " ++ quoted (lit "Go") ++ lit " [ref=e4]" in
  output (fold_left filterStep [header; child] (mkFilter false 0 [])) = [].
Proof.
  cbv zeta.
  refine (proj2 (skip_section_passed_over (mkFilter false 0 []) _
                   [lit "    - button " ++ quoted (lit "Go") ++ lit " [ref=e4]"]
                   [] _ _)).
  - vm_compute. reflexivity.
  - constructor; [|constructor]. split; [vm_compute; lia | vm_compute; reflexivity].
Defined.

Lemma many_greedy {R : Type} (class : N -> bool) (w rest : jsstring)
    (k : jsstring -> option R) :
  forallb class w = true ->
  match rest with [] => True | c :: _ => class c = false end ->
  k rest <> None ->
  many class (w ++ rest) k = k rest.
Proof.
  intros Hw Hrest Hk. induction w as [|c w IH].
  - cbn [app]. destruct rest as [|c rest]; [reflexivity|].
    cbn [many]. rewrite Hrest. reflexivity.
  - cbn [forallb] in Hw. apply andb_true_iff in Hw as [Hc Hw].
    cbn [app many]. rewrite Hc, (IH Hw).
    destruct (k rest); [reflexivity | contradiction].
Qed.

Lemma exec_group_run {R : Type} (class : N -> bool) (w rest : jsstring)
    (cap : option jsstring) (k : jsstring -> option jsstring -> option R) :
  nonEmpty w = true ->
  forallb class w = true ->
  match rest with [] => True | c :: _ => class c = false end ->
  k rest (Some w) <> None ->
  exec (Group (Many1 class)) (w ++ rest) cap k = k rest (Some w).
Proof.
  intros Hne Hw Hrest Hk. destruct w as [|c w]; [discriminate|].
  assert (Hcap : firstn (List.length ((c :: w) ++ rest) - List.length rest)
                   ((c :: w) ++ rest) = c :: w).
  { rewrite length_app, Nat.add_sub, firstn_app, Nat.sub_diag, firstn_all.
    cbn [firstn]. apply app_nil_r. }
  cbn [forallb] in Hw. apply andb_true_iff in Hw as [Hc Hw].
  cbn [exec]. cbn [app]. rewrite Hc.
  rewrite (many_greedy class w rest _ Hw Hrest).
  - cbn [app] in Hcap. rewrite Hcap. reflexivity.
  - cbn [app] in Hcap. rewrite Hcap. exact Hk.
Qed.

(** A pattern that opens with a literal text can only match where that
    text starts. *)
Section Opening.
Variables (r : regex) (p : N) (t : jsstring).
Hypothesis opens : forall s, startsWith s (p :: t) = false -> matchHere r s = None.

Lemma search_empty : search r [] = None.
Proof. cbn [search]. rewrite opens; reflexivity. Qed.

Lemma search_skip_chars (pre s : jsstring) :
  Forall (fun c => c <> p) pre -> search r (pre ++ s) = search r s.
Proof.
  induction 1 as [|c pre Hc _ IH]; [reflexivity|].
  cbn [app search]. rewrite opens; [exact IH|].
  cbn [startsWith]. apply N.eqb_neq in Hc. rewrite Hc. reflexivity.
Qed.

Lemma startsWith_no_straddle (text a b : jsstring) (d : N) :
  Forall (fun c => c <> d) text ->
  text <> [] ->
  startsWith (a ++ d :: b) text = startsWith a text.
Proof.
  intros Htext. revert a. induction Htext as [|q text Hq Htext IH]; intros a Hne.
  - contradiction.
  - destruct a as [|c a]; cbn [app startsWith].
    + apply not_eq_sym in Hq. apply N.eqb_neq in Hq. rewrite Hq. reflexivity.
    + destruct text as [|q' text'].
      * destruct a; reflexivity.
      * rewrite IH by discriminate. reflexivity.
Qed.

Lemma search_skip_excluded (a b : jsstring) (d : N) :
  Forall (fun c => c <> d) (p :: t) ->
  includes a (p :: t) = false ->
  search r (a ++ d :: b) = search r (d :: b).
Proof.
  intros Htext. induction a as [|c a IH]; intros Hinc; [reflexivity|].
  cbn [includes] in Hinc. apply orb_false_iff in Hinc as [Hstart Hinc].
  cbn [app search]. rewrite opens; [exact (IH Hinc)|].
  change (c :: a ++ d :: b) with ((c :: a) ++ d :: b).
  rewrite startsWith_no_straddle by (auto; discriminate). exact Hstart.
Qed.

End Opening.

Lemma opens_seq (text : jsstring) (r : regex) (s : jsstring) :
  startsWith s text = false -> matchHere (Seq (Lit text) r) s = None.
Proof. intros H. unfold matchHere. cbn [exec]. rewrite H. reflexivity. Qed.

Lemma opens_lit (text : jsstring) (s : jsstring) :
  startsWith s text = false -> matchHere (Lit text) s = None.
Proof. intros H. unfold matchHere. cbn [exec]. rewrite H. reflexivity. Qed.

Lemma isWordChar_cases (c : N) :
  isWordChar c = true ->
  (97 <= c <= 122 \/ 65 <= c <= 90 \/ 48 <= c <= 57 \/ c = 95)%N.
Proof.
  unfold isWordChar, inRange. intros H.
  repeat (apply orb_true_iff in H as [H|H]);
    try (apply andb_true_iff in H as [H1 H2];
         apply N.leb_le in H1; apply N.leb_le in H2);
    try apply N.eqb_eq in H; lia.
Qed.

Lemma isWhiteSpace_cases (c : N) :
  isWhiteSpace c = true -> (9 <= c <= 13 \/ c = 32 \/ 160 <= c)%N.
Proof.
  unfold isWhiteSpace, inRange. intros H.
  repeat (apply orb_true_iff in H as [H|H]);
    try (apply andb_true_iff in H as [H1 H2];
         apply N.leb_le in H1; apply N.leb_le in H2);
    try apply N.eqb_eq in H; lia.
Qed.

Lemma word_chars (P : N -> Prop) (s : jsstring) :
  (forall c, (97 <= c <= 122 \/ 65 <= c <= 90 \/ 48 <= c <= 57 \/ c = 95)%N -> P c) ->
  forallb isWordChar s = true -> Forall P s.
Proof.
  intros HP H. apply Forall_forall. intros c Hin.
  apply HP, isWordChar_cases. rewrite forallb_forall in H. exact (H c Hin).
Qed.

Lemma elementLine_parts (role name ref : jsstring) :
  elementLine role name ref
  = (lit "- " ++ role ++ [space]) ++ [dquote] ++ name
    ++ dquote :: [space] ++ lit "[ref=" ++ ref ++ lit "]".
Proof.
  unfold elementLine, quoted. change (lit " [ref=") with (space :: lit "[ref=").
  repeat (rewrite <- ?app_assoc; cbn [app]). reflexivity.
Qed.

Lemma matchHere_role (role rest : jsstring) :
  word role = true ->
  matchHere roleRegex (lit "- " ++ role ++ space :: rest) = Some role.
Proof.
  unfold word. intros H. apply andb_true_iff in H as [Hne Hw].
  unfold matchHere, roleRegex.
  destruct role as [|c role]; [discriminate|].
  pose proof Hw as Hc. cbn [forallb] in Hc. apply andb_true_iff in Hc as [Hc _].
  assert (Hws : isWhiteSpace c = false).
  { apply isWordChar_cases in Hc.
    destruct (isWhiteSpace c) eqn:E; [|reflexivity].
    apply isWhiteSpace_cases in E. lia. }
  transitivity
    (exec (Group (Many1 isWordChar)) ((c :: role) ++ space :: rest) None
       (fun _ cap => Some (match cap with Some c => c | None => [] end))).
  - cbn [exec]. change (startsWith _ (lit "-")) with true. cbv iota.
    change (skipn _ (lit "- " ++ (c :: role) ++ space :: rest))
      with (space :: (c :: role) ++ space :: rest).
    change (isWhiteSpace space) with true. cbv iota.
    cbn [app many]. rewrite Hws. reflexivity.
  - rewrite (exec_group_run isWordChar (c :: role) (space :: rest) None _
               Hne Hw eq_refl); [reflexivity | discriminate].
Qed.

Lemma matchHere_name (name rest : jsstring) :
  nonEmpty name = true ->
  forallb (fun c => negb (c =? dquote)%N) name = true ->
  matchHere nameRegex (dquote :: name ++ dquote :: rest) = Some name.
Proof.
  intros Hne Hw. unfold matchHere, nameRegex.
  transitivity
    (exec (Group (Many1 (fun c => negb (c =? dquote)%N))) (name ++ dquote :: rest)
       None
       (fun s' cap' =>
          exec (Lit [dquote]) s' cap'
            (fun _ cap => Some (match cap with Some c => c | None => [] end)))).
  - reflexivity.
  - rewrite (exec_group_run _ name (dquote :: rest) None _ Hne Hw eq_refl);
      [reflexivity | discriminate].
Qed.

Lemma matchHere_ref (ref : jsstring) :
  word ref = true ->
  matchHere refRegex (lit "[ref=" ++ ref ++ lit "]") = Some ref.
Proof.
  unfold word. intros H. apply andb_true_iff in H as [Hne Hw].
  unfold matchHere, refRegex.
  transitivity
    (exec (Group (Many1 isWordChar)) (ref ++ lit "]") None
       (fun s' cap' =>
          exec (Lit (lit "]")) s' cap'
            (fun _ cap => Some (match cap with Some c => c | None => [] end)))).
  - reflexivity.
  - rewrite (exec_group_run _ ref (lit "]") None _ Hne Hw eq_refl);
      [reflexivity | discriminate].
Qed.

Lemma search_found (r : regex) (s c : jsstring) :
  matchHere r s = Some c -> search r s = Some c.
Proof. intros H. destruct s; cbn [search]; rewrite H; reflexivity. Qed.

Lemma elementLine_parse_format (role name ref : jsstring) :
  word role = true ->
  plainName name = true ->
  word ref = true ->
  parseYAMLLine (elementLine role name ref)
  = Some (mkElement (lit "element") role name ref [] true) /\
  formatElement (mkElement (lit "element") role name ref [] true)
  = Some (printedElement role name ref).
Proof.
  intros Hrole Hname Href.
  unfold plainName in Hname.
  repeat (apply andb_true_iff in Hname as [Hname ?]).
  repeat match goal with
         | H : negb _ = true |- _ => apply negb_true_iff in H
         end.
  rename H into Hhidden, H0 into Hurl, H1 into Hrefs, H2 into Hquote.
  pose proof Hrole as Hr. unfold word in Hr. apply andb_true_iff in Hr as [Hrne Hrw].
  pose proof Href as Hf. unfold word in Hf. apply andb_true_iff in Hf as [Hfne Hfw].
  assert (Hnamechars : Forall (fun c => c <> dquote) name).
  { apply Forall_forall. intros c Hin. rewrite forallb_forall in Hquote.
    specialize (Hquote c Hin). apply negb_true_iff, N.eqb_neq in Hquote. exact Hquote. }
  split.
  - unfold parseYAMLLine.
    assert (Hm : matchHere roleRegex (elementLine role name ref) = Some role).
    { unfold elementLine. exact (matchHere_role role _ Hrole). }
    rewrite Hm. rewrite elementLine_parts.
    assert (Hn : search nameRegex
                   ((lit "- " ++ role ++ [space]) ++ [dquote] ++ name
                    ++ dquote :: [space] ++ lit "[ref=" ++ ref ++ lit "]")
                 = Some name).
    { rewrite (search_skip_chars nameRegex dquote [] (opens_seq _ _)).
      - apply search_found. exact (matchHere_name name _ Hname Hquote).
      - apply Forall_app. split; [repeat constructor; discriminate|].
        apply Forall_app. split; [|repeat constructor; discriminate].
        apply (word_chars _ role); [|exact Hrw]. unfold dquote. intros; lia. }
    assert (Hr : search refRegex
                   ((lit "- " ++ role ++ [space]) ++ [dquote] ++ name
                    ++ dquote :: [space] ++ lit "[ref=" ++ ref ++ lit "]")
                 = Some ref).
    { rewrite (search_skip_chars refRegex 91 (lit "ref=") (opens_seq _ _)).
      2:{ apply Forall_app. split; [repeat constructor; discriminate|].
          apply Forall_app. split; [|repeat constructor; discriminate].
          apply (word_chars _ role); [|exact Hrw]. intros; lia. }
      rewrite (search_skip_chars refRegex 91 (lit "ref=") (opens_seq _ _) [dquote])
        by (repeat constructor; discriminate).
      rewrite (search_skip_excluded refRegex 91 (lit "ref=") (opens_seq _ _))
        by (try exact Hrefs; repeat constructor; discriminate).
      change (dquote :: [space] ++ lit "[ref=" ++ ref ++ lit "]")
        with ([dquote; space] ++ lit "[ref=" ++ ref ++ lit "]").
      rewrite (search_skip_chars refRegex 91 (lit "ref=") (opens_seq _ _)
                 [dquote; space])
        by (repeat constructor; discriminate).
      apply search_found, matchHere_ref, Href. }
    assert (Hu : search urlRegex
                   ((lit "- " ++ role ++ [space]) ++ [dquote] ++ name
                    ++ dquote :: [space] ++ lit "[ref=" ++ ref ++ lit "]")
                 = None).
    { rewrite (search_skip_chars urlRegex 47 (lit "url:") (opens_seq _ _)).
      2:{ apply Forall_app. split; [repeat constructor; discriminate|].
          apply Forall_app. split; [|repeat constructor; discriminate].
          apply (word_chars _ role); [|exact Hrw]. intros; lia. }
      rewrite (search_skip_chars urlRegex 47 (lit "url:") (opens_seq _ _) [dquote])
        by (repeat constructor; discriminate).
      rewrite (search_skip_excluded urlRegex 47 (lit "url:") (opens_seq _ _))
        by (try exact Hurl; repeat constructor; discriminate).
      rewrite <- (app_nil_r (dquote :: _)).
      rewrite (search_skip_chars urlRegex 47 (lit "url:") (opens_seq _ _)).
      - exact (search_empty urlRegex 47 (lit "url:") (opens_seq _ _)).
      - change (dquote :: [space] ++ lit "[ref=" ++ ref ++ lit "]")
          with ((dquote :: space :: lit "[ref=") ++ ref ++ lit "]").
        apply Forall_app. split; [repeat constructor; discriminate|].
        apply Forall_app. split; [|repeat constructor; discriminate].
        apply (word_chars _ ref); [|exact Hfw]. intros; lia. }
    assert (Hh : search hiddenRegex
                   ((lit "- " ++ role ++ [space]) ++ [dquote] ++ name
                    ++ dquote :: [space] ++ lit "[ref=" ++ ref ++ lit "]")
                 = None).
    { rewrite (search_skip_chars hiddenRegex 40 (lit "hidden)") (opens_lit _)).
      2:{ apply Forall_app. split; [repeat constructor; discriminate|].
          apply Forall_app. split; [|repeat constructor; discriminate].
          apply (word_chars _ role); [|exact Hrw]. intros; lia. }
      rewrite (search_skip_chars hiddenRegex 40 (lit "hidden)") (opens_lit _) [dquote])
        by (repeat constructor; discriminate).
      rewrite (search_skip_excluded hiddenRegex 40 (lit "hidden)") (opens_lit _))
        by (try exact Hhidden; repeat constructor; discriminate).
      rewrite <- (app_nil_r (dquote :: _)).
      rewrite (search_skip_chars hiddenRegex 40 (lit "hidden)") (opens_lit _)).
      - exact (search_empty hiddenRegex 40 (lit "hidden)") (opens_lit _)).
      - change (dquote :: [space] ++ lit "[ref=" ++ ref ++ lit "]")
          with ((dquote :: space :: lit "[ref=") ++ ref ++ lit "]").
        apply Forall_app. split; [repeat constructor; discriminate|].
        apply Forall_app. split; [|repeat constructor; discriminate].
        apply (word_chars _ ref); [|exact Hfw]. intros; lia. }
    rewrite Hn, Hr, Hu, Hh. reflexivity.
  - unfold formatElement, printedElement. cbn [ResponseTrimmer.ref ResponseTrimmer.role
      ResponseTrimmer.name ResponseTrimmer.url nonEmpty].
    rewrite Hfne, Hrne, Hname. cbn [negb app join].
    rewrite <- !app_assoc. reflexivity.
Qed.

(** X16. An element line as the snapshot writes it (a dash, a role of word
    characters, a quoted plain name and a reference of word characters) is
    parsed into exactly these three fields, with no address and visible, and
    such an element is printed as the reference in brackets, the role and
    the quoted name. *)
Theorem elementLine_parsed (role name ref : jsstring) :
  word role = true ->
  plainName name = true ->
  word ref = true ->
  parseYAMLLine (elementLine role name ref)
  = Some (mkElement (lit "element") role name ref [] true) /\
  formatElement (mkElement (lit "element") role name ref [] true)
  = Some (printedElement role name ref).
Proof. exact (elementLine_parse_format role name ref). Qed.

Lemma elementLine_parsed_witness :
  parseYAMLLine (elementLine (lit "button") (lit "Sign in") (lit "e12"))
  = Some (mkElement (lit "element") (lit "button") (lit "Sign in") (lit "e12")
            [] true) /\
  formatElement (mkElement (lit "element") (lit "button") (lit "Sign in")
                   (lit "e12") [] true)
  = Some (printedElement (lit "button") (lit "Sign in") (lit "e12")).
Proof.
  apply (elementLine_parsed (lit "button") (lit "Sign in") (lit "e12"));
    vm_compute; reflexivity.
Defined.

Lemma dropWhile_run (p : N -> bool) (run rest : jsstring) :
  forallb p run = true ->
  match rest with [] => True | c :: _ => p c = false end ->
  dropWhile p (run ++ rest) = rest.
Proof.
  intros Hrun Hrest. induction run as [|c run IH].
  - destruct rest as [|c rest]; [reflexivity|]. cbn. rewrite Hrest. reflexivity.
  - cbn [forallb] in Hrun. apply andb_true_iff in Hrun as [Hc Hrun].
    cbn. rewrite Hc. exact (IH Hrun).
Qed.

Lemma trim_indented (indent body : jsstring) (first last : N) :
  forallb isWhiteSpace indent = true ->
  isWhiteSpace first = false ->
  isWhiteSpace last = false ->
  trim (indent ++ first :: body ++ [last]) = first :: body ++ [last].
Proof.
  intros Hindent Hfirst Hlast. unfold trim, trimStart.
  rewrite (dropWhile_run _ indent (first :: body ++ [last]) Hindent Hfirst).
  unfold trimEnd.
  assert (Hrev : rev (first :: body ++ [last]) = last :: rev (first :: body)).
  { change (first :: body ++ [last]) with ((first :: body) ++ [last]).
    rewrite rev_app_distr. reflexivity. }
  rewrite Hrev. cbn [dropWhile]. rewrite Hlast, <- Hrev.
  apply rev_involutive.
Qed.

Lemma trim_elementLine (indent role name ref : jsstring) :
  forallb isWhiteSpace indent = true ->
  trim (indent ++ elementLine role name ref) = elementLine role name ref.
Proof.
  intros Hindent.
  assert (Hshape : elementLine role name ref
                   = 45%N :: (space :: role ++ [space] ++ quoted name
                              ++ lit " [ref=" ++ ref) ++ [93%N]).
  { unfold elementLine. cbn [app lit map list_ascii_of_string].
    repeat (rewrite <- ?app_assoc; cbn [app]). reflexivity. }
  rewrite Hshape. apply trim_indented; [exact Hindent | reflexivity | reflexivity].
Qed.

(** X17. Outside a skip section, or at an indentation that ends it, an
    indented element line with an interactive role, or with a name of more
    than two characters and a role that is not skipped, and without a skip
    keyword, adds exactly its print to the output and leaves the filter
    outside any skip section. *)
Theorem element_line_printed (st : Filter) (indent role name ref : jsstring) :
  let line := indent ++ elementLine role name ref in
  forallb isWhiteSpace indent = true ->
  word role = true ->
  plainName name = true ->
  word ref = true ->
  has INTERACTIVE_ROLES role = true
  \/ (has SKIP_ROLES role = false /\ (2 < List.length name)%nat) ->
  hasSkipKeyword line = false ->
  inSkipSection st = false \/ (getIndentLevel line <= skipDepth st)%nat ->
  filterStep st line
  = mkFilter false (skipDepth st) (output st ++ [printedElement role name ref]).
Proof.
  intros line Hindent Hrole Hname Href Hkept Hkey Hsection. subst line.
  destruct (elementLine_parse_format role name ref Hrole Hname Href)
    as [Hparse Hformat].
  assert (Hemit : forall skipping,
             emit (mkFilter skipping (skipDepth st) (output st))
                  (elementLine role name ref)
             = mkFilter skipping (skipDepth st)
                 (output st ++ [printedElement role name ref])).
  { intros skipping. unfold emit. rewrite Hparse.
    assert (Hi : isInteractive (mkElement (lit "element") role name ref [] true)
                 = true).
    { unfold isInteractive.
      cbn [visible ResponseTrimmer.role ResponseTrimmer.name ResponseTrimmer.url
           negb nonEmpty].
      unfold word in Hrole. apply andb_true_iff in Hrole as [-> _].
      cbn [andb].
      destruct Hkept as [-> | [-> Hlen]]; [reflexivity|].
      destruct (has INTERACTIVE_ROLES role); [reflexivity|].
      apply Nat.ltb_lt in Hlen. rewrite Hlen.
      unfold plainName in Hname.
      repeat (apply andb_true_iff in Hname as [Hname _]).
      rewrite Hname. reflexivity. }
    rewrite Hi, Hformat. reflexivity. }
  unfold hasSkipKeyword in Hkey. unfold filterStep.
  rewrite (trim_elementLine indent role name ref Hindent) in Hkey |- *.
  rewrite Hkey.
  change (nonEmpty (elementLine role name ref)) with true.
  change (startsWith (elementLine role name ref) (lit "URL:")) with false.
  change (startsWith (elementLine role name ref) (lit "Title:")) with false.
  change (startsWith (elementLine role name ref) (lit "Page Loaded:")) with false.
  cbn [negb orb].
  destruct (inSkipSection st) eqn:Hskip.
  - destruct Hsection as [Hsection | Hsection]; [discriminate|].
    apply Nat.leb_le in Hsection. rewrite Hsection. apply Hemit.
  - rewrite <- (Hemit false). destruct st; cbn in *. subst. reflexivity.
Qed.

Lemma element_line_printed_witness :
  filterStep (mkFilter true 2 [])
    (lit "  " ++ elementLine (lit "button") (lit "Sign in") (lit "e12"))
  = mkFilter false 2 [printedElement (lit "button") (lit "Sign in") (lit "e12")].
Proof.
  apply (element_line_printed (mkFilter true 2 []) (lit "  ")
           (lit "button") (lit "Sign in") (lit "e12"));
    try (vm_compute; reflexivity).
  - left. vm_compute. reflexivity.
  - right. vm_compute. lia.
Defined.

End TrimmerFurther.
